(** * A shallow embedding of [predict.py]

    The predictor of the repository is one Python class.  Its request
    handler [predict] is modelled stage by stage, in the order of the
    source: seed selection, geometry resolution, adapter management,
    safety filtering and persistence.  Python integers are [Z], Python
    floats are the binary64 numbers of [PrimFloat], the module-level
    dictionary is a [gmap], exceptions are an error monad, and the state of
    the long-lived predictor object is threaded explicitly. *)

From Stdlib Require Import ZArith Lia Ascii.
From Stdlib Require Floats Uint63.
Import PrimFloat.
From stdpp Require Import base option list strings pretty gmap.

Set Warnings "-inexact-float".

Open Scope Z_scope.

(** ** Exceptions and the error monad *)

Inductive exn : Type :=
  | KeyError (key : string)
  | ZeroDivisionError
  | OverflowError
  | ValueError
  | FileNotFoundError (msg : string)
  | IndexError
  | Exception (msg : string)
  | RuntimeError.

Inductive result (A : Type) : Type :=
  | Ok (a : A)
  | Raise (e : exn).
Arguments Ok {A} a.
Arguments Raise {A} e.

#[global] Instance result_ret : MRet result := λ A a, Ok a.
#[global] Instance result_bind : MBind result := λ A B f r,
  match r with
  | Ok a => f a
  | Raise e => Raise e
  end.

(** Code that mutates an object and may raise: the object's state is
    threaded, and an exception leaves the mutations made so far. *)
Definition Eff (S A : Type) : Type := S → result A * S.

#[global] Instance Eff_ret {S} : MRet (Eff S) := λ A a st, (Ok a, st).
#[global] Instance Eff_bind {S} : MBind (Eff S) := λ A B f m st,
  match m st with
  | (Ok a, st') => f a st'
  | (Raise e, st') => (Raise e, st')
  end.

Definition raise {S A} (e : exn) : Eff S A := λ st, (Raise e, st).
Definition get {S} : Eff S S := λ st, (Ok st, st).
Definition modify {S} (f : S → S) : Eff S () := λ st, (Ok (), f st).

(** ** Python numbers *)

Module Py.

Abbreviation float := PrimFloat.float.

(** An integer as a binary number, before any rounding. *)
Definition exact_int (n : Z) : SpecFloat.spec_float :=
  match n with
  | Z0 => SpecFloat.S754_zero false
  | Zpos p => SpecFloat.S754_finite false p 0
  | Zneg p => SpecFloat.S754_finite true p 0
  end.

(** A rounded result as a float: [OverflowError] when the rounding left
    the range of the finite numbers. *)
Definition checked (x : SpecFloat.spec_float) : result float :=
  match x with
  | SpecFloat.S754_infinity _ => Raise OverflowError
  | _ => Ok (FloatOps.SF2Prim x)
  end.

(** [float(n)] for an integer of any size: [n] rounded to the nearest
    binary64 number, ties to even; exact below [2^53]. *)
Definition float_of_int (n : Z) : result float :=
  checked (SpecFloat.binary_normalize FloatOps.prec FloatOps.emax n 0 false).

(** [a / b] on two integers of any size: true division, the exact
    quotient rounded to the nearest binary64 number, ties to even;
    [ZeroDivisionError] on a zero divisor. *)
Definition truediv (a b : Z) : result float :=
  if decide (b = 0) then Raise ZeroDivisionError
  else checked (SpecFloat.SFdiv FloatOps.prec FloatOps.emax
                  (exact_int a) (exact_int b)).

(** [n * x] with an integer on the left and a float on the right: the
    integer is converted, then the two floats are multiplied. *)
Definition mul_int_float (n : Z) (x : float) : result float :=
  f ← float_of_int n; mret (PrimFloat.mul f x).

(** One step of the builtin [min]: the running minimum is replaced
    only by a strictly smaller item. *)
Definition min_step (cur item : float) : float :=
  if PrimFloat.ltb item cur then item else cur.

(** [min(a, b, c)]. *)
Definition min3 (a b c : float) : float :=
  min_step (min_step a b) c.

(** [int(x)]: truncation towards zero; [OverflowError] on an infinity
    and [ValueError] on a NaN. *)
Definition int_of_float (x : float) : result Z :=
  match FloatOps.Prim2SF x with
  | SpecFloat.S754_zero _ => Ok 0
  | SpecFloat.S754_finite s m e =>
      let mag := if decide (0 ≤ e) then Z.shiftl (Z.pos m) e
                 else Z.shiftr (Z.pos m) (- e) in
      Ok (if s then - mag else mag)
  | SpecFloat.S754_infinity _ => Raise OverflowError
  | SpecFloat.S754_nan => Raise ValueError
  end.

Definition one : float := 1%float.

(** What the proofs track of a binary64 number, on its unfolded form:
    its magnitude in units of [2^-1074], the least positive binary64
    number, which is an integer; its exponent; and whether it is a
    positive number with a full mantissa of 53 digits. *)
Definition magnitude (x : SpecFloat.spec_float) : Z :=
  match x with
  | SpecFloat.S754_finite _ m e => Z.pos m * 2 ^ (e + 1074)
  | _ => 0
  end.

Definition exponent (x : SpecFloat.spec_float) : Z :=
  match x with
  | SpecFloat.S754_finite _ _ e => e
  | _ => 0
  end.

Definition normal (x : SpecFloat.spec_float) : Prop :=
  match x with
  | SpecFloat.S754_finite false m e =>
      SpecFloat.Zdigits2 (Z.pos m) = 53 ∧ -1074 ≤ e ≤ 971
  | _ => False
  end.

End Py.

(** ** Geometry resolution *)

Module Geometry.

Definition MAX_IMAGE_SIZE : Z := 1440.

(** The items of the dictionary literal, in source order. *)
Definition ASPECT_RATIOS_items : list (string * (Z * Z)) :=
  [ ("1:1",  (1024, 1024));
    ("16:9", (1344, 768));
    ("21:9", (1536, 640));
    ("3:2",  (1216, 832));
    ("2:3",  (832, 1216));
    ("4:5",  (896, 1088));
    ("5:4",  (1088, 896));
    ("3:4",  (896, 1152));
    ("4:3",  (1152, 896));
    ("9:16", (768, 1344));
    ("9:21", (640, 1536)) ]%string.

Definition ASPECT_RATIOS : gmap string (Z * Z) :=
  list_to_map ASPECT_RATIOS_items.

(** [ASPECT_RATIOS[aspect_ratio]] *)
Definition aspect_ratio_to_width_height (aspect_ratio : string)
  : result (Z * Z) :=
  match ASPECT_RATIOS !! aspect_ratio with
  | Some wh => Ok wh
  | None => Raise (KeyError aspect_ratio)
  end.

(** [((n + 15) // 16) * 16]; [//] is floor division, as [Z.div] is for
    a positive divisor. *)
Definition make_multiple_of_16 (n : Z) : Z :=
  ((n + 15) / 16) * 16.

(** [scale = min(MAX_IMAGE_SIZE / width, MAX_IMAGE_SIZE / height, 1)].
    The integer [1] takes part in the comparison as [1.0]. *)
Definition image_scale (width height : Z) : result Py.float :=
  sw ← Py.truediv MAX_IMAGE_SIZE width;
  sh ← Py.truediv MAX_IMAGE_SIZE height;
  mret (Py.min3 sw sh Py.one).

(** The extents before alignment (lines 242-245): scaled down when
    [scale < 1], left alone otherwise. *)
Definition scaled_size (width height : Z) : result (Z * Z) :=
  scale ← image_scale width height;
  if PrimFloat.ltb scale Py.one then
    x ← Py.mul_int_float width scale;
    width' ← Py.int_of_float x;
    y ← Py.mul_int_float height scale;
    height' ← Py.int_of_float y;
    mret (width', height')
  else mret (width, height).

(** The img2img branch of [predict] for a seed image whose tensor has
    extents [width = shape[-1]] and [height = shape[-2]]: the pair of
    local variables [(width, height)] after alignment. *)
Definition image_width_height (width height : Z) : result (Z * Z) :=
  '(width', height') ← scaled_size width height;
  mret (make_multiple_of_16 width', make_multiple_of_16 height').

(** The keyword arguments for the pipeline that [predict] assembles in
    [flux_kwargs]. *)
Record FluxKwargs : Type := mkFluxKwargs {
  kw_width : Z;
  kw_height : Z;
  (** extents [(height, width)] of the interpolated seed tensor *)
  kw_image : option (Z * Z);
  kw_strength : option Py.float
}.

(** [torch.nn.functional.interpolate(init_image, (height, width))] on
    the tensor of an image (line 250): the extents of the result.  An
    output extent that is not positive is refused. *)
Definition interpolate (size : Z * Z) : result (Z * Z) :=
  if decide (0 < size.1 ∧ 0 < size.2) then Ok size
  else Raise RuntimeError.

(** Lines 227-256 of [predict].  [image] is [None] or the natural
    extents [(width, height)] of the seed image.  The dictionary
    [flux_kwargs] is built from the token's pair before the image is
    looked at; the img2img branch rebinds the locals [width] and
    [height], resizes the seed tensor to them and adds the keys [image]
    and [strength]. *)
Definition resolve_flux_kwargs (aspect_ratio : string)
    (image : option (Z * Z)) (prompt_strength : Py.float)
  : result FluxKwargs :=
  '(width, height) ← aspect_ratio_to_width_height aspect_ratio;
  let flux_kwargs := mkFluxKwargs width height None None in
  match image with
  | Some (iw, ih) =>
      '(width, height) ← image_width_height iw ih;
      init_image ← interpolate (height, width);
      mret (mkFluxKwargs (kw_width flux_kwargs) (kw_height flux_kwargs)
              (Some init_image) (Some prompt_strength))
  | None => mret flux_kwargs
  end.

End Geometry.

(** ** Seed selection *)

Module Seed.

(** [os.urandom(n)]: the next [n] bytes of the operating system's
    entropy source [src]. *)
Definition urandom (src : nat → Byte.byte) (n : nat) : list Byte.byte :=
  src <$> seq 0 n.

(** [int.from_bytes(bs, "big")] *)
Definition int_from_bytes_big (bs : list Byte.byte) : Z :=
  foldl (λ acc b, acc * 256 + Z.of_N (Byte.to_N b)) 0 bs.

(** Lines 223-224 of [predict]. *)
Definition choose_seed (seed : option Z) (src : nat → Byte.byte) : Z :=
  match seed with
  | None => int_from_bytes_big (urandom src 2)
  | Some seed => seed
  end.

End Seed.

(** ** Adapter management *)

Module Adapters.

(** The calls made on the pipelines, in the order they are made.
    [LoadLoras] marks an entry into the predictor's own [load_loras]. *)
Inductive call : Type :=
  | UnloadLoraWeights
  | LoadLoras (lora_names : list string) (lora_scales : list Py.float)
  | LoadLoraWeights (local_path adapter_name : string)
  | SetAdapters (adapter_names : list string)
      (adapter_weights : list Py.float).

(** The attribute [last_loaded_loras]: the empty dictionary that
    [setup] stores, or the list of a later request. *)
Inductive tracked : Type :=
  | EmptyDict
  | NameList (lora_names : list string).

#[global] Instance tracked_eq_dec : EqDecision tracked.
Proof. solve_decision. Defined.

(** The predictor object, as far as adapters go.  Both pipelines are
    built over one transformer, so there is one store of attached
    adapters whichever pipeline a call goes through. *)
Record Predictor : Type := mkPredictor {
  last_loaded_loras : tracked;
  (** adapter name and weight file of each attached adapter *)
  attached : list (string * string);
  (** the adapters made active, with their weights *)
  active : option (list string * list Py.float);
  calls : list call
}.

(** The predictor after [setup]. *)
Definition after_setup : Predictor :=
  mkPredictor EmptyDict [] None [].

Definition record (c : call) (p : Predictor) : Predictor :=
  mkPredictor (last_loaded_loras p) (attached p) (active p)
    (calls p ++ [c]).

(** [pipe.unload_lora_weights()] *)
Definition unload_lora_weights : Eff Predictor () :=
  modify (λ p,
    mkPredictor (last_loaded_loras p) [] None
      (calls p ++ [UnloadLoraWeights])).

(** [pipe.load_lora_weights(local_path, adapter_name=adapter_name)] *)
Definition load_lora_weights (local_path adapter_name : string)
  : Eff Predictor () :=
  modify (λ p,
    mkPredictor (last_loaded_loras p)
      (attached p ++ [(adapter_name, local_path)]) (active p)
      (calls p ++ [LoadLoraWeights local_path adapter_name])).

(** [pipe.set_adapters(adapter_names, adapter_weights=adapter_weights)] *)
Definition set_adapters (adapter_names : list string)
    (adapter_weights : list Py.float) : Eff Predictor () :=
  modify (λ p,
    mkPredictor (last_loaded_loras p) (attached p)
      (Some (adapter_names, adapter_weights))
      (calls p ++ [SetAdapters adapter_names adapter_weights])).

(** [self.last_loaded_loras = lora_names] *)
Definition set_last_loaded_loras (lora_names : list string)
  : Eff Predictor () :=
  modify (λ p,
    mkPredictor (NameList lora_names) (attached p) (active p) (calls p)).

Definition names : list string :=
  [ "a"; "b"; "c"; "d"; "e"; "f"; "g"; "h"; "i"; "j"; "k"; "l"; "m";
    "n"; "o"; "p"; "q"; "r"; "s"; "t"; "u"; "v"; "w"; "x"; "y"; "z"
  ]%string.

(** [os.path.join("loras", lora_filename)]: an absolute second
    component replaces the first. *)
Definition local_path_of (lora_filename : string) : string :=
  if String.prefix "/" lora_filename then lora_filename
  else "loras" +:+ "/" +:+ lora_filename.

Section with_filesystem.

(** [os.path.exists] *)
Variable path_exists : string → bool.

(** The [for] loop of [load_loras], entered with the current value
    of [count]; returns the final [count]. *)
Fixpoint load_each (lora_names : list string) (count : nat)
  : Eff Predictor nat :=
  match lora_names with
  | [] => mret count
  | lora_filename :: rest =>
      let local_path := local_path_of lora_filename in
      if negb (path_exists local_path) then
        raise (FileNotFoundError
                 ("Could not find LoRA file at: " +:+ local_path))
      else
        match names !! count with
        | None => raise IndexError
        | Some adapter_name =>
            load_lora_weights local_path adapter_name;;
            load_each rest (S count)
        end
  end.

Definition load_loras (lora_names : list string)
    (lora_scales : list Py.float) : Eff Predictor () :=
  modify (record (LoadLoras lora_names lora_scales));;
  count ← load_each lora_names 0;
  let adapter_names := take count names in
  let adapter_weights := take count lora_scales in
  set_last_loaded_loras lora_names;;
  set_adapters adapter_names adapter_weights.

(** The scales handed to [load_loras] (lines 262-265): [0.8] for
    each adapter when none are given, a single given scale repeated
    for several adapters, the given list otherwise. *)
Definition scales_for (hf_loras : list string)
    (lora_scales : option (list Py.float)) : list Py.float :=
  match lora_scales with
  | None | Some [] => replicate (length hf_loras) 0.8%float
  | Some ((s0 :: _) as given) =>
      if bool_decide (length given = 1%nat)
         && bool_decide (1 < length hf_loras)%nat
      then replicate (length hf_loras) s0
      else given
  end.

(** Lines 258-269 of [predict]; the result is the value stored under
    [joint_attention_kwargs]: [Some 1.0] for the dictionary
    [{"scale": 1.0}], [None] for [None]. *)
Definition apply_loras (hf_loras : list string)
    (lora_scales : option (list Py.float))
  : Eff Predictor (option Py.float) :=
  match hf_loras with
  | _ :: _ =>
      self ← get;
      (if bool_decide (NameList hf_loras ≠ last_loaded_loras self) then
         unload_lora_weights;;
         load_loras hf_loras (scales_for hf_loras lora_scales)
       else mret ());;
      mret (Some 1%float)
  | [] =>
      unload_lora_weights;;
      mret None
  end.

End with_filesystem.

(** *** What a run of the adapter code is observed to do *)

(** The calls made between two states of the predictor. *)
Definition new_calls (before after : Predictor) : list call :=
  drop (length (calls before)) (calls after).

Definition is_load_loras (c : call) : bool :=
  match c with LoadLoras _ _ => true | _ => false end.

Definition is_load_lora_weights (c : call) : bool :=
  match c with LoadLoraWeights _ _ => true | _ => false end.

Definition is_set_adapters (c : call) : bool :=
  match c with SetAdapters _ _ => true | _ => false end.

(** How many of the calls [cs] are of the kind [kind]. *)
Definition count_calls (kind : call → bool) (cs : list call) : nat :=
  length (List.filter kind cs).

(** An unload-and-reload cycle: everything is unloaded, then
    [load_loras] is entered. *)
Definition is_reload (cs : list call) : bool :=
  match cs with
  | UnloadLoraWeights :: LoadLoras _ _ :: _ => true
  | _ => false
  end.

(** The weight loads of the loop for the files [lora_names], the
    first of which gets the name of index [count]. *)
Definition loads_of (lora_names : list string) (count : nat) : list call :=
  zip_with (λ f n, LoadLoraWeights (local_path_of f) n)
    lora_names (drop count names).

Definition attachments_of (lora_names : list string) (count : nat)
  : list (string * string) :=
  zip_with (λ f n, (n, local_path_of f)) lora_names (drop count names).

(** The predictor once the loop has loaded [lora_names]. *)
Definition with_loads (lora_names : list string) (count : nat)
    (p : Predictor) : Predictor :=
  mkPredictor (last_loaded_loras p)
    (attached p ++ attachments_of lora_names count) (active p)
    (calls p ++ loads_of lora_names count).

(** The predictor after everything was unloaded. *)
Definition unloaded (p : Predictor) : Predictor :=
  mkPredictor (last_loaded_loras p) [] None
    (calls p ++ [UnloadLoraWeights]).

(** The predictor after a complete reload of [hf_loras] with the
    scales [lora_scales]. *)
Definition reloaded (hf_loras : list string) (lora_scales : list Py.float)
    (p : Predictor) : Predictor :=
  let n := length hf_loras in
  mkPredictor (NameList hf_loras) (attachments_of hf_loras 0)
    (Some (take n names, take n lora_scales))
    (calls p
     ++ [UnloadLoraWeights; LoadLoras hf_loras lora_scales]
     ++ loads_of hf_loras 0
     ++ [SetAdapters (take n names) (take n lora_scales)]).

(** The states the predictor goes through: the one [setup] leaves, and
    the one any request leaves, whether it returns or raises and
    whatever the files present at that time. *)
Inductive reachable : Predictor → Prop :=
  | reachable_setup : reachable after_setup
  | reachable_request path_exists hf_loras lora_scales p r p' :
      reachable p →
      apply_loras path_exists hf_loras lora_scales p = (r, p') →
      reachable p'.

(** The weight file of [lora_filename] is there. *)
Definition present (path_exists : string → bool) (lora_filename : string)
  : Prop :=
  path_exists (local_path_of lora_filename) = true.

(** The file name that [predict] takes when [hf_loras] is not given. *)
Definition default_loras : list string := ["Cyberpunk Anime.safetensors"].

(** A directory [loras] that holds every file asked for. *)
Definition all_present : string → bool := λ _, true.

(** 27 distinct file names. *)
Definition twenty_seven_loras : list string :=
  (λ i : nat, "style-" +:+ pretty i +:+ ".safetensors") <$> seq 0 27.

End Adapters.

(** ** Safety filtering, persistence and upscaling *)

Module Outputs.

(** One call of [save] on an image: where it goes, the [quality]
    keyword when one is passed, and the extents the image was resized
    to when it is an upscaled one. *)
Record saved : Type := mkSaved {
  saved_path : string;
  saved_quality : option Z;
  saved_resized : option (Z * Z)
}.

(** [s.replace(".", by)]: every dot, left to right. *)
Fixpoint replace_dots (by_ s : string) : string :=
  match s with
  | EmptyString => EmptyString
  | String c rest =>
      if Ascii.eqb c "."%char then by_ +:+ replace_dots by_ rest
      else String c (replace_dots by_ rest)
  end.

(** [f"/tmp/out-{i}.{output_format}"] *)
Definition output_path_of (i : nat) (output_format : string) : string :=
  "/tmp/out-" +:+ pretty i +:+ "." +:+ output_format.

(** [str(path).replace(".", f"-upscaled.")] *)
Definition upscaled_path_of (path : string) : string :=
  replace_dots "-upscaled." path.

(** The [quality] keyword of a [save]: absent for [png]. *)
Definition quality_for (output_format : string) (output_quality : Z)
  : option Z :=
  if bool_decide (output_format ≠ "png") then Some output_quality
  else None.

Definition save (f : saved) : Eff (list saved) () :=
  modify (λ files, files ++ [f]).

Section with_request.

Context {Image : Type}.

Variable disable_safety_checker : bool.
(** what [run_safety_checker] returned; consulted only when the
    checker is enabled *)
Variable has_nsfw_content : list bool.
Variable output_format : string.
Variable output_quality : Z.
Variable target_width target_height : Z.

(** The loop of lines 290-299 from index [i] on, with the paths
    collected so far. *)
Fixpoint save_safe (i : nat) (images : list Image)
    (output_paths : list string) : Eff (list saved) (list string) :=
  match images with
  | [] => mret output_paths
  | img :: rest =>
      skip ← (if negb disable_safety_checker then
                match has_nsfw_content !! i with
                | Some flagged => mret flagged
                | None => raise IndexError
                end
              else mret false);
      if (skip : bool) then save_safe (S i) rest output_paths
      else
        let output_path := output_path_of i output_format in
        save (mkSaved output_path
                (quality_for output_format output_quality) None);;
        save_safe (S i) rest (output_paths ++ [output_path])
  end.

(** The loop of lines 305-317. *)
Fixpoint upscale_each (output_paths upscaled_paths : list string)
  : Eff (list saved) (list string) :=
  match output_paths with
  | [] => mret upscaled_paths
  | path :: rest =>
      let upscaled_path := upscaled_path_of path in
      save (mkSaved upscaled_path
              (quality_for output_format output_quality)
              (Some (target_width, target_height)));;
      upscale_each rest (upscaled_paths ++ [upscaled_path])
  end.

(** Lines 286-319 of [predict], run on the images of the pipeline's
    output; the state is the list of files written. *)
Definition finish (images : list Image) : Eff (list saved) (list string) :=
  output_paths ← save_safe 0 images [];
  if bool_decide (length output_paths = 0%nat) then
    raise (Exception
      "NSFW content detected. Try running it again, or try a different prompt.")
  else upscale_each output_paths [].

End with_request.

End Outputs.

(** *** Which images of a batch pass the filter *)

Module Filtering.

(** The image of index [i] is kept: always with the checker off, and
    with the checker on when its verdict is there and is [False]. *)
Definition kept (disable_safety_checker : bool) (has_nsfw_content : list bool)
    (i : nat) : bool :=
  disable_safety_checker
  || match has_nsfw_content !! i with
     | Some flagged => negb flagged
     | None => false
     end.

(** The indices of the images kept, among the [n] images from index
    [i] on, in batch order. *)
Definition survivors (disable_safety_checker : bool)
    (has_nsfw_content : list bool) (i n : nat) : list nat :=
  List.filter (kept disable_safety_checker has_nsfw_content) (seq i n).

(** The file of a candidate image and the file of its upscaled copy. *)
Definition candidate_file (output_format : string) (output_quality : Z)
    (i : nat) : Outputs.saved :=
  Outputs.mkSaved (Outputs.output_path_of i output_format)
    (Outputs.quality_for output_format output_quality) None.

Definition upscaled_file (output_format : string) (output_quality : Z)
    (target_width target_height : Z) (i : nat) : Outputs.saved :=
  Outputs.mkSaved
    (Outputs.upscaled_path_of (Outputs.output_path_of i output_format))
    (Outputs.quality_for output_format output_quality)
    (Some (target_width, target_height)).

(** A string without a dot. *)
Fixpoint dot_free (s : string) : bool :=
  match s with
  | EmptyString => true
  | String c rest => negb (Ascii.eqb c "."%char) && dot_free rest
  end.

(** A decimal digit, and a string of decimal digits. *)
Definition is_digit (c : ascii) : bool :=
  match c with
  | "0" | "1" | "2" | "3" | "4" | "5" | "6" | "7" | "8" | "9" => true
  | _ => false
  end%char.

Fixpoint all_digits (s : string) : bool :=
  match s with
  | EmptyString => true
  | String c rest => is_digit c && all_digits rest
  end.

(** The files a request adds for the images of indices [ks]: the
    candidates first, then their upscaled copies. *)
Definition files_for (output_format : string) (output_quality : Z)
    (target_width target_height : Z) (ks : list nat) : list Outputs.saved :=
  (candidate_file output_format output_quality <$> ks)
  ++ (upscaled_file output_format output_quality target_width target_height
        <$> ks).

(** The paths a request returns for the images of indices [ks]. *)
Definition paths_for (output_format : string) (ks : list nat) : list string :=
  (λ k, Outputs.upscaled_path_of (Outputs.output_path_of k output_format))
  <$> ks.

End Filtering.

(** ** The request handler as a whole *)

Module Predict.

(** The inputs of [predict].  The seed image stands for its natural
    extents [(width, height)], all that the handler itself reads of
    it. *)
Record Request : Type := mkRequest {
  prompt : string;
  aspect_ratio : string;
  image : option (Z * Z);
  prompt_strength : Py.float;
  num_outputs : nat;
  num_inference_steps : Z;
  guidance_scale : Py.float;
  seed : option Z;
  output_format : string;
  output_quality : Z;
  hf_loras : list string;
  lora_scales : option (list Py.float);
  disable_safety_checker : bool;
  target_width : Z;
  target_height : Z
}.

Inductive pipeline : Type := Txt2Img | Img2Img.

(** The pipeline call, with [common_args] and [flux_kwargs] unpacked. *)
Record PipeCall : Type := mkPipeCall {
  pc_pipe : pipeline;
  pc_prompt : list string;
  pc_guidance_scale : Py.float;
  (** the seed of the one generator of the batch *)
  pc_seed : Z;
  pc_num_inference_steps : Z;
  pc_max_sequence_length : Z;
  pc_flux_kwargs : Geometry.FluxKwargs;
  pc_joint_attention_kwargs : option Py.float
}.

(** What a request can change: the predictor, the files written, and
    the generations run. *)
Record World : Type := mkWorld {
  predictor : Adapters.Predictor;
  files : list Outputs.saved;
  generations : list PipeCall
}.

Definition of_result {A} (r : result A) : Eff World A := λ w, (r, w).

Definition on_predictor {A} (m : Eff Adapters.Predictor A) : Eff World A :=
  λ w, let '(r, p) := m (predictor w) in
       (r, mkWorld p (files w) (generations w)).

Definition on_files {A} (m : Eff (list Outputs.saved) A) : Eff World A :=
  λ w, let '(r, fs) := m (files w) in
       (r, mkWorld (predictor w) fs (generations w)).

Section with_collaborators.

Context {Image : Type}.

(** the entropy source behind [os.urandom] *)
Variable entropy : nat → Byte.byte.
(** [os.path.exists] *)
Variable path_exists : string → bool.
(** the images that a pipeline call returns, which depend on the
    adapters attached at that time *)
Variable run_pipe : Adapters.Predictor → PipeCall → list Image.
(** the verdicts of [run_safety_checker] *)
Variable run_safety_checker : list Image → list bool.

(** [pipe(...)]: the call is recorded and its images returned. *)
Definition generate (call : PipeCall) : Eff World (list Image) :=
  λ w, (Ok (run_pipe (predictor w) call),
        mkWorld (predictor w) (files w) (generations w ++ [call])).

(** [predict], lines 222-319. *)
Definition predict (req : Request) : Eff World (list string) :=
  let seed := Seed.choose_seed (seed req) entropy in
  flux_kwargs ←
    of_result (Geometry.resolve_flux_kwargs (aspect_ratio req) (image req)
                 (prompt_strength req));
  let pipe := match image req with Some _ => Img2Img | None => Txt2Img end in
  joint_attention_kwargs ←
    on_predictor
      (Adapters.apply_loras path_exists (hf_loras req) (lora_scales req));
  images ←
    generate
      (mkPipeCall pipe (replicate (num_outputs req) (prompt req))
         (guidance_scale req) seed (num_inference_steps req) 512
         flux_kwargs joint_attention_kwargs);
  let has_nsfw_content :=
    if disable_safety_checker req then []
    else run_safety_checker images in
  on_files
    (Outputs.finish (disable_safety_checker req) has_nsfw_content
       (output_format req) (output_quality req)
       (target_width req) (target_height req) images).

End with_collaborators.

(** The request that the declared defaults of the inputs give for a
    prompt (lines 157-220). *)
Definition default_request (prompt : string) : Request :=
  mkRequest prompt "1:1" None 0.5%float 1 4 5%float None "webp" 80
    Adapters.default_loras None false 2048 2048.

(** The world after start-up, before any request. *)
Definition fresh : World := mkWorld Adapters.after_setup [] [].

End Predict.

(** ** Start-up *)

Module Setup.

Definition MODEL_CACHE : string := "FLUX.1-schnell".
Definition SAFETY_CACHE : string := "safety-cache".
Definition FEATURE_EXTRACTOR : string := "/src/feature-extractor".
Definition SAFETY_URL : string :=
  "https://weights.replicate.delivery/default/sdxl/safety-1.0.tar".
Definition MODEL_URL : string :=
  "https://weights.replicate.delivery/default/black-forest-labs/FLUX.1-schnell/files.tar".
Definition fsrcnn_weights : string := "FSRCNN_x4.pb".

(** What [setup] does, in order. *)
Inductive step : Type :=
  | CheckCall (argv : list string)
  | LoadSafetyChecker (path : string)
  | LoadFeatureExtractor (path : string)
  | LoadTxt2Img (path : string)
  | BuildImg2Img
  | CreateUpscaler
  | ReadModel (path : string)
  | SetModel (name : string) (scale : Z).

Definition is_check_call (s : step) : bool :=
  match s with CheckCall _ => true | _ => false end.

(** What [setup] can raise: an exception of its own, or the
    [CalledProcessError] of a command that exits with a status other
    than zero. *)
Inductive error : Type :=
  | Python (e : exn)
  | CalledProcessError (returncode : Z) (cmd : list string).

(** The process during [setup]: the paths that exist, the steps taken,
    and the attribute [last_loaded_loras] once it is assigned. *)
Record Process : Type := mkProcess {
  exists_ : string → bool;
  steps : list step;
  last_loaded_loras : option Adapters.tracked
}.

(** The process before [setup], on a file system [paths]. *)
Definition started (paths : string → bool) : Process :=
  mkProcess paths [] None.

Definition Run (A : Type) : Type := Process → (error + A) * Process.

#[global] Instance Run_ret : MRet Run := λ A a w, (inr a, w).
#[global] Instance Run_bind : MBind Run := λ A B f m w,
  match m w with
  | (inr a, w') => f a w'
  | (inl e, w') => (inl e, w')
  end.

Definition throw {A} (e : error) : Run A := λ w, (inl e, w).

Definition step_ (s : step) : Run () :=
  λ w, (inr (), mkProcess (exists_ w) (steps w ++ [s]) (last_loaded_loras w)).

Section with_pget.

(** what running a command gives: its exit status and the paths that
    exist afterwards *)
Variable run : list string → (string → bool) → Z * (string → bool).

(** [subprocess.check_call(argv, close_fds=False)] *)
Definition check_call (argv : list string) : Run () :=
  λ w, let '(returncode, paths) := run argv (exists_ w) in
       let w' := mkProcess paths (steps w ++ [CheckCall argv])
                   (last_loaded_loras w) in
       if bool_decide (returncode = 0) then (inr (), w')
       else (inl (CalledProcessError returncode argv), w').

(** [download_weights(url, dest, file)] *)
Definition download_weights (url dest : string) (file : bool) : Run () :=
  if negb file then check_call ["pget"; "-xf"; url; dest]
  else check_call ["pget"; url; dest].

(** [os.path.exists(path)] *)
Definition path_exists (path : string) : Run bool :=
  λ w, (inr (exists_ w path), w).

(** [Predictor.setup], lines 54-103. *)
Definition setup : Run () :=
  (λ w, (inr (),
         mkProcess (exists_ w) (steps w) (Some Adapters.EmptyDict)));;
  cached ← path_exists SAFETY_CACHE;
  (if negb cached then download_weights SAFETY_URL SAFETY_CACHE false
   else mret ());;
  step_ (LoadSafetyChecker SAFETY_CACHE);;
  step_ (LoadFeatureExtractor FEATURE_EXTRACTOR);;
  cached ← path_exists MODEL_CACHE;
  (if negb cached then download_weights MODEL_URL "." false
   else mret ());;
  step_ (LoadTxt2Img MODEL_CACHE);;
  step_ BuildImg2Img;;
  step_ CreateUpscaler;;
  found ← path_exists fsrcnn_weights;
  if negb found then
    throw (Python (FileNotFoundError
                     ("FSRCNN weights not found: " +:+ fsrcnn_weights)))
  else
    step_ (ReadModel fsrcnn_weights);;
    step_ (SetModel "fsrcnn" 4).

End with_pget.

(** A [pget] that succeeds and leaves the destination in place, with
    the model cache in it when the destination is the working
    directory, and one that exits with status 1 and leaves nothing. *)
Definition pget_ok : list string → (string → bool) → Z * (string → bool) :=
  λ argv paths,
    (0, λ path,
          bool_decide (Some path = last argv
                       ∨ (last argv = Some "."%string ∧ path = MODEL_CACHE))
          || paths path).

Definition pget_fails : list string → (string → bool) → Z * (string → bool) :=
  λ _ paths, (1, paths).

End Setup.

(** * Properties *)

(** ** Binary64 arithmetic

    [int(width * scale)] raises on an infinity or a NaN.  The lemmas
    below follow the library's specification of rounding far enough to
    show that the product of an extent and a scale below one is finite:
    a number with at most [d] bits before the binary point keeps at most
    [d + 1] of them when it is rounded. *)

Section float_facts.

Import SpecFloat FloatOps Py.

Lemma digits2_pos_size (p : positive) : digits2_pos p = Pos.size p.
Proof. induction p; simpl; congruence. Qed.

Lemma Zdigits2_nonneg (m : Z) : 0 ≤ Zdigits2 m.
Proof. destruct m; simpl; lia. Qed.

Lemma Zdigits2_gt (m : Z) : 0 ≤ m → m < 2 ^ Zdigits2 m.
Proof.
  intros Hm. destruct m as [| p | p]; simpl; [lia | | lia].
  rewrite digits2_pos_size.
  pose proof (Pos.size_gt p) as H.
  apply Pos2Z.pos_lt_pos in H. by rewrite Pos2Z.inj_pow in H.
Qed.

Lemma Zdigits2_le (m k : Z) :
  0 ≤ k → m < 2 ^ k → 0 ≤ m → Zdigits2 m ≤ k.
Proof.
  intros Hk Hlt Hm. destruct m as [| p | p]; simpl; [lia | | lia].
  rewrite digits2_pos_size.
  pose proof (Pos.size_le p) as H.
  apply Pos2Z.pos_le_pos in H. rewrite Pos2Z.inj_pow in H.
  assert (Hp : 2 ^ Z.pos (Pos.size p) < 2 ^ (k + 1)).
  { rewrite Z.pow_add_r by lia. change (2 ^ 1) with 2.
    change (Z.pos p~0) with (2 * Z.pos p) in H. lia. }
  apply Z.pow_lt_mono_r_iff in Hp; lia.
Qed.

Lemma Zdigits2_pos (m : Z) : 0 < m → 0 < Zdigits2 m.
Proof. destruct m; simpl; lia. Qed.

Lemma Zdigits2_lower (m : Z) : 0 < m → 2 ^ (Zdigits2 m - 1) ≤ m.
Proof.
  intros Hm. destruct m as [| p | p]; simpl; try lia.
  rewrite digits2_pos_size.
  pose proof (Pos.size_le p) as H.
  apply Pos2Z.pos_le_pos in H. rewrite Pos2Z.inj_pow in H.
  change (Z.pos p~0) with (2 * Z.pos p) in H.
  replace (Z.pos (Pos.size p)) with (Z.pos (Pos.size p) - 1 + 1) in H by lia.
  rewrite Z.pow_add_r in H by lia. change (2 ^ 1) with 2 in H. lia.
Qed.

Lemma Zdigits2_unique (m d : Z) :
  2 ^ (d - 1) ≤ m < 2 ^ d → 0 < m → Zdigits2 m = d.
Proof.
  intros [Hlo Hhi] Hm.
  destruct (Z.le_gt_cases d 0) as [Hd | Hd].
  { assert (2 ^ d ≤ 2 ^ 0) by (apply Z.pow_le_mono_r; lia).
    change (2 ^ 0) with 1 in *. lia. }
  pose proof (Zdigits2_le m d ltac:(lia) Hhi ltac:(lia)) as H1.
  pose proof (Zdigits2_gt m ltac:(lia)) as H2.
  pose proof (Zdigits2_pos m Hm) as H3.
  destruct (Z.le_gt_cases d (Zdigits2 m)) as [? | Hlt]; [lia |].
  assert (2 ^ Zdigits2 m ≤ 2 ^ (d - 1)) by (apply Z.pow_le_mono_r; lia).
  lia.
Qed.

Lemma shr_1_m (mrs : shr_record) :
  0 ≤ shr_m mrs → shr_m (shr_1 mrs) = shr_m mrs / 2.
Proof.
  destruct mrs as [m r s]. simpl. intros Hm.
  destruct m as [| [p | p |] | p]; cbn [shr_m]; try lia; try reflexivity.
  - apply Z.div_unique with 1; lia.
  - apply Z.div_unique with 0; lia.
Qed.

Lemma iter_shr_1_m (p : positive) (mrs : shr_record) :
  0 ≤ shr_m mrs →
  shr_m (iter_pos shr_1 p mrs) = shr_m mrs / 2 ^ Z.pos p.
Proof.
  revert mrs. induction p as [p IH | p IH |]; intros mrs Hm; simpl.
  - assert (H1 : 0 ≤ shr_m (shr_1 mrs))
      by (rewrite shr_1_m by done; apply Z.div_pos; lia).
    assert (0 < 2 ^ Z.pos p) by (apply Z.pow_pos_nonneg; lia).
    assert (H2 : 0 ≤ shr_m (iter_pos shr_1 p (shr_1 mrs)))
      by (rewrite IH by done; apply Z.div_pos; lia).
    rewrite IH, IH, shr_1_m by done.
    rewrite !Z.div_div by lia.
    f_equal. rewrite <- Z.pow_add_r, <- Z.pow_succ_r by lia.
    f_equal. lia.
  - assert (0 < 2 ^ Z.pos p) by (apply Z.pow_pos_nonneg; lia).
    assert (H2 : 0 ≤ shr_m (iter_pos shr_1 p mrs))
      by (rewrite IH by done; apply Z.div_pos; lia).
    rewrite IH, IH by done. rewrite Z.div_div by lia.
    f_equal. rewrite <- Z.pow_add_r by lia. f_equal. lia.
  - rewrite shr_1_m by done. reflexivity.
Qed.

Lemma fexp_eq (e : Z) : fexp prec emax e = Z.max (e - 53) (-1074).
Proof. reflexivity. Qed.

Lemma shr_record_of_loc_m (m : Z) (l : location) :
  shr_m (shr_record_of_loc m l) = m.
Proof. by destruct l as [| []]. Qed.

(** Shifting a mantissa of at least 53 digits to exactly 53. *)
Lemma shr_fexp_normal (m e : Z) (l : location) :
  0 < m → 53 ≤ Zdigits2 m → -1074 ≤ Zdigits2 m + e - 53 →
  shr_m (shr_fexp prec emax m e l).1 = m / 2 ^ (Zdigits2 m - 53) ∧
  (shr_fexp prec emax m e l).2 = e + (Zdigits2 m - 53).
Proof.
  intros Hm Hd He. unfold shr_fexp, shr. rewrite fexp_eq.
  rewrite Z.max_l by lia.
  replace (Zdigits2 m + e - 53 - e) with (Zdigits2 m - 53) by lia.
  destruct (Zdigits2 m - 53) as [| n | n] eqn:Hn; cbn [fst snd]; [| | lia].
  - rewrite shr_record_of_loc_m. change (2 ^ 0) with 1.
    rewrite Z.div_1_r. split; [done | lia].
  - rewrite iter_shr_1_m, shr_record_of_loc_m
      by (rewrite shr_record_of_loc_m; lia).
    done.
Qed.

Lemma div_pow_digits (m : Z) :
  0 < m → 53 ≤ Zdigits2 m →
  2 ^ 52 ≤ m / 2 ^ (Zdigits2 m - 53) < 2 ^ 53.
Proof.
  intros Hm Hd.
  pose proof (Zdigits2_lower m Hm) as Hlo.
  pose proof (Zdigits2_gt m ltac:(lia)) as Hhi.
  set (n := Zdigits2 m - 53) in *.
  assert (Hn : 0 < 2 ^ n) by (apply Z.pow_pos_nonneg; lia).
  replace (Zdigits2 m - 1) with (52 + n) in Hlo by lia.
  replace (Zdigits2 m) with (53 + n) in Hhi by lia.
  rewrite Z.pow_add_r in Hlo, Hhi by lia.
  split.
  - apply Z.div_le_lower_bound; lia.
  - apply Z.div_lt_upper_bound; lia.
Qed.

Lemma round_nearest_even_cases (m : Z) (l : location) :
  round_nearest_even m l = m ∨ round_nearest_even m l = m + 1.
Proof.
  unfold round_nearest_even.
  destruct l as [| []]; try destruct (Z.even m); auto.
Qed.

(** Rounding a mantissa [m] of at least 53 digits, with exponent [e],
    in the range of the normal numbers: the result is a normal number
    whose mantissa is [m] cut to 53 digits, or that plus one. *)
Lemma binary_round_aux_normal (s : bool) (m e : Z) (l : location) :
  0 < m → 53 ≤ Zdigits2 m →
  -1074 ≤ Zdigits2 m + e - 53 → Zdigits2 m + e ≤ 1023 →
  let e1 := e + (Zdigits2 m - 53) in
  let q := m / 2 ^ (Zdigits2 m - 53) in
  ∃ r er,
    binary_round_aux prec emax s m e l = S754_finite s r er ∧
    Zdigits2 (Z.pos r) = 53 ∧ -1074 ≤ er ≤ 971 ∧
    e1 ≤ er ≤ e1 + 1 ∧
    Z.pos r * 2 ^ (er - e1)
    = round_nearest_even q
        (loc_of_shr_record (shr_fexp prec emax m e l).1).
Proof.
  intros Hm Hd Hlo Hhi e1 q. unfold binary_round_aux.
  pose proof (shr_fexp_normal m e l Hm Hd Hlo) as [H1 H2].
  pose proof (div_pow_digits m Hm Hd) as Hq. fold q in Hq, H1. fold e1 in H2.
  destruct (shr_fexp prec emax m e l) as [mrs' e'] eqn:Hshr.
  cbn [fst snd] in *. subst e'. rewrite H1.
  set (m2 := round_nearest_even q (loc_of_shr_record mrs')).
  assert (Hm2 : m2 = q ∨ m2 = q + 1) by apply round_nearest_even_cases.
  destruct (decide (m2 < 2 ^ 53)) as [Hsmall | Hbig].
  - assert (Hd2 : Zdigits2 m2 = 53)
      by (apply Zdigits2_unique; simpl; lia).
    unfold shr_fexp, shr. rewrite fexp_eq, Hd2, Z.max_l by lia.
    replace (53 + e1 - 53 - e1) with 0 by lia. cbn [fst snd].
    rewrite shr_record_of_loc_m.
    destruct m2 as [| r | r] eqn:Hr; [lia | | lia].
    change (emax - prec) with 971.
    rewrite (proj2 (Z.leb_le e1 971)) by lia.
    exists r, e1. split; [done |]. split; [done |]. split; [lia |].
    split; [lia |]. rewrite Z.sub_diag. change (2 ^ 0) with 1. lia.
  - assert (Hm2' : m2 = 2 ^ 53) by lia.
    unfold shr_fexp, shr. rewrite fexp_eq, Hm2'.
    change (Zdigits2 (2 ^ 53)) with 54. rewrite Z.max_l by lia.
    replace (54 + e1 - 53 - e1) with 1 by lia. cbn [fst snd].
    change (shr_m (iter_pos shr_1 1
              (shr_record_of_loc (2 ^ 53) loc_Exact)))
      with (Z.pos (2 ^ 52)).
    change (emax - prec) with 971.
    rewrite (proj2 (Z.leb_le (e1 + 1) 971)) by lia.
    exists (2 ^ 52)%positive, (e1 + 1). split; [done |].
    split; [done |]. split; [lia |]. split; [lia |].
    replace (e1 + 1 - e1) with 1 by lia. done.
Qed.


Lemma pow2_pos (k : Z) : 0 ≤ k → 0 < 2 ^ k.
Proof. intros. apply Z.pow_pos_nonneg; lia. Qed.

(** The same in units of [2^-1074]. *)
Lemma binary_round_aux_magnitude (m e : Z) (l : location) :
  0 < m → 53 ≤ Zdigits2 m →
  -1074 ≤ Zdigits2 m + e - 53 → Zdigits2 m + e ≤ 1023 →
  let n := Zdigits2 m - 53 in
  let q := m / 2 ^ n in
  let u := 2 ^ (e + n + 1074) in
  normal (binary_round_aux prec emax false m e l) ∧
  2 ^ 52 ≤ q ∧
  (magnitude (binary_round_aux prec emax false m e l) = q * u ∨
   magnitude (binary_round_aux prec emax false m e l) = (q + 1) * u).
Proof.
  intros Hm Hd Hlo Hhi n q u.
  destruct (binary_round_aux_normal false m e l Hm Hd Hlo Hhi)
    as (r & er & -> & Hr & Her & He1 & Hval).
  fold n in He1, Hval. fold q in Hval.
  split; [done |].
  split; [apply (div_pow_digits m Hm Hd) |].
  cbn [magnitude].
  replace (er + 1074) with ((er - (e + n)) + (e + n + 1074)) by lia.
  rewrite Z.pow_add_r by lia. fold u.
  rewrite Z.mul_assoc, Hval.
  destruct (round_nearest_even_cases q
              (loc_of_shr_record (shr_fexp prec emax m e l).1)) as [-> | ->];
    auto.
Qed.

Lemma normal_valid (x : spec_float) :
  normal x → valid_binary prec emax x = true.
Proof.
  destruct x as [| | | [] m e]; try done. intros [Hd He].
  cbn [valid_binary]. unfold bounded, canonical_mantissa.
  cbn [Zdigits2] in Hd. rewrite fexp_eq, Hd.
  apply andb_true_iff. split; [apply Z.eqb_eq | apply Z.leb_le].
  - lia.
  - change (emax - prec) with 971. lia.
Qed.

Lemma normal_Prim2SF (x : spec_float) :
  normal x → Prim2SF (SF2Prim x) = x.
Proof. intros H. by apply FloatAxioms.Prim2SF_SF2Prim, normal_valid. Qed.

Lemma normal_magnitude (x : spec_float) :
  normal x →
  2 ^ (exponent x + 1126) ≤ magnitude x < 2 ^ (exponent x + 1127).
Proof.
  destruct x as [| | | [] m e]; try done. intros [Hd He].
  cbn [magnitude exponent].
  pose proof (Zdigits2_lower (Z.pos m) ltac:(lia)) as Hlo.
  pose proof (Zdigits2_gt (Z.pos m) ltac:(lia)) as Hhi.
  rewrite Hd in Hlo, Hhi. change (53 - 1) with 52 in Hlo.
  replace (e + 1126) with (52 + (e + 1074)) by lia.
  replace (e + 1127) with (53 + (e + 1074)) by lia.
  rewrite (Z.pow_add_r 2 52), (Z.pow_add_r 2 53) by lia.
  pose proof (pow2_pos (e + 1074) ltac:(lia)). split.
  - apply Z.mul_le_mono_nonneg_r; lia.
  - apply Zmult_lt_compat_r; lia.
Qed.

(** The exponent of a normal number, from bounds on its magnitude. *)
Lemma normal_exponent (x : spec_float) (lo hi : Z) :
  normal x → 2 ^ lo ≤ magnitude x → magnitude x < 2 ^ hi → 0 ≤ lo →
  lo - 1127 < exponent x < hi - 1126.
Proof.
  intros Hx Hlo Hhi H0.
  pose proof (normal_magnitude x Hx) as [H1 H2].
  assert (He : -1074 ≤ exponent x)
    by (destruct x as [| | | [] m e]; try done; cbn; by destruct Hx as [_ [? ?]]).
  split.
  - assert (Hlt : 2 ^ lo < 2 ^ (exponent x + 1127)) by lia.
    apply Z.pow_lt_mono_r_iff in Hlt; lia.
  - destruct (Z.le_gt_cases hi (exponent x + 1126)) as [Hle | ]; [| lia].
    assert (2 ^ hi ≤ 2 ^ (exponent x + 1126))
      by (apply Z.pow_le_mono_r; lia).
    lia.
Qed.

Lemma pos_iter_xO (p k : positive) :
  Z.pos (Pos.iter xO p k) = Z.pos p * 2 ^ Z.pos k.
Proof.
  induction k as [| k IH] using Pos.peano_ind.
  - simpl. lia.
  - rewrite Pos.iter_succ, Pos2Z.inj_succ, Z.pow_succ_r by lia.
    change (Z.pos (Pos.iter xO p k)~0) with (2 * Z.pos (Pos.iter xO p k)).
    rewrite IH. lia.
Qed.

Lemma shr_fexp_53 (m e : Z) (l : location) :
  Zdigits2 m = 53 → -1074 ≤ e →
  shr_fexp prec emax m e l = (shr_record_of_loc m l, e).
Proof.
  intros Hd He. unfold shr_fexp, shr. rewrite fexp_eq, Hd.
  rewrite Z.max_l by lia. by replace (53 + e - 53 - e) with 0 by lia.
Qed.

(** [float(n)] is exact below [2^53]. *)
Lemma binary_normalize_exact (n : Z) :
  0 < n < 2 ^ 53 →
  normal (binary_normalize prec emax n 0 false) ∧
  magnitude (binary_normalize prec emax n 0 false) = n * 2 ^ 1074.
Proof.
  intros [Hn Hlt]. destruct n as [| p | p]; [lia | | lia].
  unfold binary_normalize, binary_round.
  set (d := Z.pos (digits2_pos p)).
  assert (Hd : Zdigits2 (Z.pos p) = d) by done.
  assert (Hd53 : 1 ≤ d ≤ 53).
  { split; [unfold d; lia |]. rewrite <- Hd. apply Zdigits2_le; lia. }
  pose proof (Zdigits2_lower (Z.pos p) ltac:(lia)) as Hlo.
  pose proof (Zdigits2_gt (Z.pos p) ltac:(lia)) as Hhi.
  rewrite Hd in Hlo, Hhi.
  rewrite fexp_eq, Z.max_l by lia.
  assert (Hal : ∃ mz, shl_align p 0 (d + 0 - 53) = (mz, d - 53) ∧
                      Z.pos mz = Z.pos p * 2 ^ (53 - d)).
  { unfold shl_align.
    destruct (d + 0 - 53 - 0) as [| k | k] eqn:Hk; [| lia |].
    - exists p. replace (d - 53) with 0 by lia.
      replace (53 - d) with 0 by lia. split; [done | simpl; lia].
    - exists (Pos.iter xO p k). replace (d + 0 - 53) with (d - 53) by lia.
      split; [done |]. rewrite pos_iter_xO. f_equal. f_equal. lia. }
  destruct Hal as (mz & -> & Hmz).
  assert (Hp : 0 < 2 ^ (53 - d)) by (apply pow2_pos; lia).
  assert (Hdz : Zdigits2 (Z.pos mz) = 53).
  { assert (H52 : 2 ^ (53 - 1) = 2 ^ (d - 1) * 2 ^ (53 - d))
      by (rewrite <- Z.pow_add_r by lia; f_equal; lia).
    assert (H53 : 2 ^ 53 = 2 ^ d * 2 ^ (53 - d))
      by (rewrite <- Z.pow_add_r by lia; f_equal; lia).
    apply Zdigits2_unique; [| lia]. rewrite Hmz, H52, H53. split.
    - apply Z.mul_le_mono_nonneg_r; lia.
    - apply Zmult_lt_compat_r; lia. }
  destruct (binary_round_aux_normal false (Z.pos mz) (d - 53) loc_Exact)
    as (r & er & -> & Hr & Her & He1 & Hval); [lia.. |].
  split; [done |]. cbn [magnitude].
  rewrite shr_fexp_53 in Hval by (done || lia). cbn [fst] in Hval.
  rewrite Hdz in Hval, He1.
  replace (53 - 53) with 0 in Hval, He1 by lia.
  change (2 ^ 0) with 1 in Hval. rewrite Z.div_1_r in Hval.
  cbn [shr_record_of_loc loc_of_shr_record round_nearest_even] in Hval.
  replace (er + 1074) with ((er - (d - 53 + 0)) + (d + 1021)) by lia.
  rewrite Z.pow_add_r, Z.mul_assoc, Hval, Hmz by lia.
  rewrite <- Z.mul_assoc, <- Z.pow_add_r by lia.
  do 2 f_equal. lia.
Qed.


Lemma div_bounds (x b : Z) :
  0 < b → x / b * b ≤ x ∧ x < (x / b + 1) * b.
Proof.
  intros Hb. pose proof (Z.div_mod x b ltac:(lia)).
  pose proof (Z.mod_pos_bound x b Hb). lia.
Qed.

(** Three integers that stand for a truncated value [X], the exact
    value [E] and one unit in the last place [Y]: rounding to [X] or to
    [X + Y] is within one part in [2^52] of [E]. *)
Lemma one_ulp_bounds (X Y E V : Z) :
  X ≤ E → E < X + Y → Y * 2 ^ 52 ≤ X →
  V = X ∨ V = X + Y →
  V * 2 ^ 52 ≤ E * (2 ^ 52 + 1) ∧ E * (2 ^ 52 - 1) ≤ V * 2 ^ 52.
Proof. intros H1 H2 H3 [-> | ->]; lia. Qed.

(** The quotient of two positive integers, rounded. *)
Lemma SFdiv_exact_int (a b : Z) :
  0 < a → 0 < b →
  -1021 ≤ Zdigits2 a - Zdigits2 b ≤ 52 →
  let x := SFdiv prec emax (exact_int a) (exact_int b) in
  normal x ∧
  b * magnitude x * 2 ^ 52 ≤ a * 2 ^ 1074 * (2 ^ 52 + 1) ∧
  a * 2 ^ 1074 * (2 ^ 52 - 1) ≤ b * magnitude x * 2 ^ 52 ∧
  (b ≤ a → 2 ^ 1074 ≤ magnitude x).
Proof.
  intros Ha Hb Hd x. subst x.
  destruct a as [| pa | pa]; [lia | | lia].
  destruct b as [| pb | pb]; [lia | | lia].
  cbn [exact_int SFdiv xorb]. unfold SFdiv_core_binary.
  set (a := Z.pos pa) in *. set (b := Z.pos pb) in *.
  set (d1 := Zdigits2 a) in *. set (d2 := Zdigits2 b) in *.
  rewrite fexp_eq.
  replace (Z.min (Z.max (d1 + 0 - (d2 + 0) - 53) (-1074)) (0 - 0))
    with (d1 - d2 - 53) by lia.
  set (e' := d1 - d2 - 53).
  set (s := 53 + d2 - d1).
  replace (0 - 0 - e') with s by (unfold e', s; lia).
  assert (Hs : 1 ≤ s) by (unfold s; lia).
  destruct s as [| ps | ps] eqn:Hps; [lia | | lia]. rewrite <- Hps in *.
  rewrite Z.shiftl_mul_pow2 by lia.
  set (S2 := 2 ^ s).
  assert (HS2 : 0 < S2) by (apply pow2_pos; lia).
  destruct (Z.div_eucl (a * S2) b) as [q r] eqn:Hqr.
  assert (Hq : q = a * S2 / b) by (unfold Z.div; by rewrite Hqr).
  assert (Hq1 : q * b ≤ a * S2) by (rewrite Hq; by apply div_bounds).
  assert (Hq2 : a * S2 < (q + 1) * b) by (rewrite Hq; by apply div_bounds).
  (* the digits of the quotient *)
  pose proof (Zdigits2_lower a ltac:(lia)) as Ha1.
  pose proof (Zdigits2_gt a ltac:(lia)) as Ha2.
  pose proof (Zdigits2_lower b ltac:(lia)) as Hb1.
  pose proof (Zdigits2_gt b ltac:(lia)) as Hb2.
  fold d1 in Ha1, Ha2. fold d2 in Hb1, Hb2.
  pose proof (Zdigits2_pos a ltac:(lia)) as Hd1. fold d1 in Hd1.
  pose proof (Zdigits2_pos b ltac:(lia)) as Hd2. fold d2 in Hd2.
  assert (Hlow : 2 ^ 52 * 2 ^ d2 ≤ 2 ^ (d1 - 1) * S2).
  { unfold S2. rewrite <- !Z.pow_add_r by lia.
    apply Z.pow_le_mono_r; unfold s; lia. }
  assert (Hhigh : 2 ^ d1 * S2 ≤ 2 ^ 54 * 2 ^ (d2 - 1)).
  { unfold S2. rewrite <- !Z.pow_add_r by lia.
    apply Z.pow_le_mono_r; unfold s; lia. }
  assert (Hpd1 : 0 < 2 ^ (d1 - 1)) by (apply pow2_pos; lia).
  assert (Hpd2 : 0 < 2 ^ (d2 - 1)) by (apply pow2_pos; lia).
  assert (Hq52 : 2 ^ 52 ≤ q).
  { rewrite Hq. apply Z.div_le_lower_bound; [lia |].
    assert (2 ^ (d1 - 1) * S2 ≤ a * S2)
      by (apply Z.mul_le_mono_nonneg_r; lia).
    assert (b * 2 ^ 52 ≤ 2 ^ d2 * 2 ^ 52)
      by (apply Z.mul_le_mono_nonneg_r; lia).
    lia. }
  assert (Hq54 : q < 2 ^ 54).
  { rewrite Hq. apply Z.div_lt_upper_bound; [lia |].
    assert (a * S2 < 2 ^ d1 * S2) by (apply Zmult_lt_compat_r; lia).
    assert (2 ^ (d2 - 1) * 2 ^ 54 ≤ b * 2 ^ 54)
      by (apply Z.mul_le_mono_nonneg_r; lia).
    lia. }
  assert (Hdq : 53 ≤ Zdigits2 q ≤ 54).
  { pose proof (Zdigits2_gt q ltac:(lia)) as H1.
    pose proof (Zdigits2_le q 54 ltac:(lia) Hq54 ltac:(lia)) as H2.
    split; [| done].
    destruct (Z.le_gt_cases 53 (Zdigits2 q)) as [| Hlt]; [done |].
    assert (2 ^ Zdigits2 q ≤ 2 ^ 52)
      by (apply Z.pow_le_mono_r; lia).
    lia. }
  destruct (binary_round_aux_magnitude q e' (new_location b r))
    as (Hnorm & Hq' & HV); [lia | lia | unfold e'; lia | unfold e'; lia |].
  split; [exact Hnorm |].
  set (V := magnitude _) in *.
  set (n := Zdigits2 q - 53) in *.
  set (T := 2 ^ n) in *.
  set (q' := q / T) in *.
  set (u := 2 ^ (e' + n + 1074)) in *.
  assert (HT : 0 < T) by (apply pow2_pos; unfold n; lia).
  assert (Hu : 0 < u) by (apply pow2_pos; unfold e', n; lia).
  assert (HuS : u * S2 = T * 2 ^ 1074).
  { unfold u, S2, T. rewrite <- !Z.pow_add_r by (unfold e', n, s; lia).
    f_equal. unfold e', s. lia. }
  assert (Hq'1 : q' * T ≤ q) by (by apply div_bounds).
  assert (Hq'2 : q < (q' + 1) * T) by (by apply div_bounds).
  set (U := 2 ^ 1074) in *.
  assert (HU : 0 < U) by (apply pow2_pos; lia).
  (* A: b q' u <= a U *)
  assert (HA : b * q' * u ≤ a * U).
  { apply (Z.mul_le_mono_pos_r _ _ T); [lia |].
    replace (a * U * T) with (a * S2 * u) by (rewrite <- Z.mul_assoc, (Z.mul_comm S2), HuS; lia).
    replace (b * q' * u * T) with (q' * T * b * u) by lia.
    apply Z.mul_le_mono_nonneg_r; [lia |].
    etrans; [| exact Hq1]. apply Z.mul_le_mono_nonneg_r; lia. }
  assert (HB : a * U < b * q' * u + b * u).
  { apply (Z.mul_lt_mono_pos_r T); [lia |].
    replace (a * U * T) with (a * S2 * u) by (rewrite <- Z.mul_assoc, (Z.mul_comm S2), HuS; lia).
    replace ((b * q' * u + b * u) * T) with ((q' + 1) * T * b * u) by lia.
    apply Zmult_lt_compat_r; [lia |].
    eapply Z.lt_le_trans; [exact Hq2 |].
    apply Z.mul_le_mono_nonneg_r; lia. }
  assert (HC : b * u * 2 ^ 52 ≤ b * q' * u).
  { replace (b * q' * u) with (b * u * q') by lia.
    apply Z.mul_le_mono_nonneg_l; lia. }
  assert (HV' : b * V = b * q' * u ∨ b * V = b * q' * u + b * u)
    by (destruct HV as [-> | ->]; [left | right]; lia).
  destruct (one_ulp_bounds (b * q' * u) (b * u) (a * U) (b * V))
    as [H1 H2]; [done.. |].
  split; [exact H1 |]. split; [exact H2 |].
  intros Hba.
  (* the quotient of a by b is at least one *)
  assert (HqS : S2 ≤ q).
  { rewrite Hq. apply Z.div_le_lower_bound; [lia |].
    assert (b * S2 ≤ a * S2) by (apply Z.mul_le_mono_nonneg_r; lia).
    lia. }
  assert (Hn1 : n ≤ s) by (unfold n; lia).
  assert (HST : S2 = 2 ^ (s - n) * T).
  { unfold S2, T. rewrite <- Z.pow_add_r by lia. f_equal. lia. }
  assert (Hq'S : 2 ^ (s - n) ≤ q').
  { unfold q'. apply Z.div_le_lower_bound; [lia |]. rewrite Z.mul_comm.
    by rewrite <- HST. }
  assert (HUu : U = 2 ^ (s - n) * u).
  { unfold U, u. rewrite <- Z.pow_add_r by (unfold e', s, n; lia).
    f_equal. unfold e', s. lia. }
  assert (q' * u ≤ V) by (destruct HV as [-> | ->]; lia).
  rewrite HUu. etrans; [| done].
  apply Z.mul_le_mono_nonneg_r; lia.
Qed.


(** The product of two normal numbers, rounded. *)
Lemma SFmul_normal (x y : spec_float) :
  normal x → normal y →
  -1074 ≤ exponent x + exponent y ≤ 917 →
  normal (SFmul prec emax x y) ∧
  magnitude (SFmul prec emax x y) * 2 ^ 1074 * 2 ^ 52
  ≤ magnitude x * magnitude y * (2 ^ 52 + 1) ∧
  magnitude x * magnitude y * (2 ^ 52 - 1)
  ≤ magnitude (SFmul prec emax x y) * 2 ^ 1074 * 2 ^ 52.
Proof.
  destruct x as [| | | [] mx ex]; try done.
  destruct y as [| | | [] my ey]; try done.
  intros [Hdx Hex] [Hdy Hey] Hsum.
  cbn [SFmul xorb magnitude exponent] in *.
  pose proof (Zdigits2_lower (Z.pos mx) ltac:(lia)) as Hx1.
  pose proof (Zdigits2_gt (Z.pos mx) ltac:(lia)) as Hx2.
  pose proof (Zdigits2_lower (Z.pos my) ltac:(lia)) as Hy1.
  pose proof (Zdigits2_gt (Z.pos my) ltac:(lia)) as Hy2.
  rewrite Hdx in Hx1, Hx2. rewrite Hdy in Hy1, Hy2.
  change (53 - 1) with 52 in *.
  set (m := Z.pos (mx * my)).
  assert (Hm : m = Z.pos mx * Z.pos my) by done.
  assert (Hm1 : 2 ^ 104 ≤ m).
  { rewrite Hm. change (2 ^ 104) with (2 ^ 52 * 2 ^ 52).
    apply Z.mul_le_mono_nonneg; lia. }
  assert (Hm2 : m < 2 ^ 106).
  { rewrite Hm. change (2 ^ 106) with (2 ^ 53 * 2 ^ 53).
    apply Z.mul_lt_mono_nonneg; lia. }
  assert (Hdm : 105 ≤ Zdigits2 m ≤ 106).
  { pose proof (Zdigits2_gt m ltac:(lia)) as H1.
    pose proof (Zdigits2_le m 106 ltac:(lia) Hm2 ltac:(lia)) as H2.
    split; [| done].
    destruct (Z.le_gt_cases 105 (Zdigits2 m)) as [| Hlt]; [done |].
    assert (2 ^ Zdigits2 m ≤ 2 ^ 104) by (apply Z.pow_le_mono_r; lia).
    lia. }
  destruct (binary_round_aux_magnitude m (ex + ey) loc_Exact)
    as (Hnorm & Hq' & HV); [lia.. |].
  split; [exact Hnorm |].
  set (V := magnitude _) in *.
  set (n := Zdigits2 m - 53) in *.
  set (T := 2 ^ n) in *.
  set (q' := m / T) in *.
  set (u := 2 ^ (ex + ey + n + 1074)) in *.
  set (U := 2 ^ 1074).
  set (t := 2 ^ (ex + ey + 1074)).
  assert (HT : 0 < T) by (apply pow2_pos; unfold n; lia).
  assert (Ht : 0 < t) by (apply pow2_pos; lia).
  assert (HU : 0 < U) by (apply pow2_pos; lia).
  assert (Hu : u = T * t).
  { unfold u, T, t. rewrite <- Z.pow_add_r by (unfold n; lia).
    f_equal. lia. }
  assert (Hxy : Z.pos mx * 2 ^ (ex + 1074) * (Z.pos my * 2 ^ (ey + 1074))
                = m * t * U).
  { assert (Hpow : 2 ^ (ex + 1074) * 2 ^ (ey + 1074) = t * U).
    { unfold t, U. rewrite <- !Z.pow_add_r by lia. f_equal. lia. }
    rewrite Hm.
    transitivity (Z.pos mx * Z.pos my
                  * (2 ^ (ex + 1074) * 2 ^ (ey + 1074))); [ring |].
    rewrite Hpow. ring. }
  rewrite Hxy.
  assert (Hq'1 : q' * T ≤ m) by (by apply div_bounds).
  assert (Hq'2 : m < (q' + 1) * T) by (by apply div_bounds).
  assert (HA : q' * u ≤ m * t).
  { rewrite Hu. replace (q' * (T * t)) with (q' * T * t) by lia.
    apply Z.mul_le_mono_nonneg_r; lia. }
  assert (HB : m * t < q' * u + u).
  { rewrite Hu. replace (q' * (T * t) + T * t) with ((q' + 1) * T * t)
      by lia.
    apply Zmult_lt_compat_r; lia. }
  assert (HC : u * 2 ^ 52 ≤ q' * u).
  { rewrite (Z.mul_comm q'). apply Z.mul_le_mono_nonneg_l; [| done].
    rewrite Hu. apply Z.lt_le_incl, Z.mul_pos_pos; lia. }
  assert (HV' : V = q' * u ∨ V = q' * u + u)
    by (destruct HV as [-> | ->]; [left | right]; lia).
  destruct (one_ulp_bounds (q' * u) u (m * t) V) as [H1 H2]; [done.. |].
  split.
  - replace (V * U * 2 ^ 52) with (V * 2 ^ 52 * U) by lia.
    replace (m * t * U * (2 ^ 52 + 1)) with (m * t * (2 ^ 52 + 1) * U)
      by lia.
    apply Z.mul_le_mono_nonneg_r; lia.
  - replace (V * U * 2 ^ 52) with (V * 2 ^ 52 * U) by lia.
    replace (m * t * U * (2 ^ 52 - 1)) with (m * t * (2 ^ 52 - 1) * U)
      by lia.
    apply Z.mul_le_mono_nonneg_r; lia.
Qed.


(** The order of two normal numbers is the order of their magnitudes. *)
Lemma SFltb_normal (x y : spec_float) :
  normal x → normal y →
  SFltb x y = bool_decide (magnitude x < magnitude y).
Proof.
  destruct x as [| | | [] mx ex]; try done.
  destruct y as [| | | [] my ey]; try done.
  intros [Hdx Hex] [Hdy Hey].
  pose proof (Zdigits2_lower (Z.pos mx) ltac:(lia)) as Hx1.
  pose proof (Zdigits2_gt (Z.pos mx) ltac:(lia)) as Hx2.
  pose proof (Zdigits2_lower (Z.pos my) ltac:(lia)) as Hy1.
  pose proof (Zdigits2_gt (Z.pos my) ltac:(lia)) as Hy2.
  rewrite Hdx in Hx1, Hx2. rewrite Hdy in Hy1, Hy2.
  change (53 - 1) with 52 in *.
  unfold SFltb, SFcompare. cbn [magnitude].
  set (tx := 2 ^ (ex + 1074)). set (ty := 2 ^ (ey + 1074)).
  assert (Htx : 0 < tx) by (apply pow2_pos; lia).
  assert (Hty : 0 < ty) by (apply pow2_pos; lia).
  assert (Hstep : ∀ a b ta tb : Z,
             0 < ta → 2 * ta ≤ tb → a < 2 ^ 53 → 2 ^ 52 ≤ b →
             a * ta < b * tb).
  { intros a b ta tb Hta Htab Ha Hb.
    assert (a * ta < 2 ^ 53 * ta) by (apply Zmult_lt_compat_r; lia).
    assert (2 ^ 52 * tb ≤ b * tb) by (apply Z.mul_le_mono_nonneg_r; lia).
    lia. }
  assert (Hdouble : ∀ a b : Z, -1074 ≤ a → a < b →
             2 * 2 ^ (a + 1074) ≤ 2 ^ (b + 1074)).
  { intros a b Ha Hab. rewrite <- Z.pow_succ_r by lia.
    apply Z.pow_le_mono_r; lia. }
  destruct (Z.compare_spec ex ey) as [-> | Hlt | Hgt].
  - fold tx. fold ty. subst ty. fold tx.
    change (Pos.compare_cont Eq mx my) with (Pos.compare mx my).
    destruct (Pos.compare_spec mx my) as [-> | Hm | Hm].
    + rewrite bool_decide_eq_false_2; [done | lia].
    + rewrite bool_decide_eq_true_2; [done |].
      apply Zmult_lt_compat_r; lia.
    + rewrite bool_decide_eq_false_2; [done |].
      assert (Z.pos my * tx < Z.pos mx * tx)
        by (apply Zmult_lt_compat_r; lia).
      lia.
  - rewrite bool_decide_eq_true_2; [done |].
    apply Hstep; try lia. unfold tx, ty. apply Hdouble; lia.
  - rewrite bool_decide_eq_false_2; [done |].
    assert (Z.pos my * ty < Z.pos mx * tx); [| lia].
    apply Hstep; try lia. unfold tx, ty. apply Hdouble; lia.
Qed.

Lemma one_normal :
  Prim2SF 1%float = S754_finite false 4503599627370496 (-52) ∧
  normal (Prim2SF 1%float) ∧ magnitude (Prim2SF 1%float) = 2 ^ 1074.
Proof.
  assert (H : Prim2SF 1%float = S754_finite false 4503599627370496 (-52))
    by reflexivity.
  split; [exact H |]. rewrite H. split; [done |].
  cbn [magnitude]. change (Z.pos 4503599627370496) with (2 ^ 52).
  rewrite <- Z.pow_add_r by lia. reflexivity.
Qed.

(** [int(x)] for a normal number: the integer part of its value. *)
Lemma int_of_float_normal (x : spec_float) :
  normal x →
  int_of_float (SF2Prim x) = Ok (magnitude x / 2 ^ 1074).
Proof.
  intros Hx. unfold int_of_float. rewrite (normal_Prim2SF x Hx).
  destruct x as [| | | [] m e]; try done. destruct Hx as [Hd He].
  cbn [magnitude]. f_equal.
  assert (Ht : 0 < 2 ^ (e + 1074)) by (apply pow2_pos; lia).
  destruct (decide (0 ≤ e)) as [Hpos | Hneg].
  - rewrite Z.shiftl_mul_pow2 by done.
    replace (e + 1074) with (e + 1074)%Z by done.
    rewrite (Z.pow_add_r 2 e 1074), Z.mul_assoc by lia.
    rewrite Z.div_mul; [done |]. pose proof (pow2_pos 1074). lia.
  - rewrite Z.shiftr_div_pow2 by lia.
    assert (Hsplit : 2 ^ 1074 = 2 ^ (- e) * 2 ^ (e + 1074)).
    { rewrite <- Z.pow_add_r by lia. f_equal. lia. }
    rewrite Hsplit.
    pose proof (pow2_pos (- e)).
    rewrite Z.div_mul_cancel_r; [done | lia..].
Qed.


(** The arithmetic behind a scaled extent: [Vs] stands for the scale
    and [Vp] for the product, in units of [1/U]; both are within one
    part in [2^52] of what they round. *)
Lemma scaled_extent_arith (w m Vs Vp U : Z) :
  0 < U → 0 < w → w ≤ m → m < 2 ^ 32 →
  m * Vs * 2 ^ 52 ≤ 1440 * U * (2 ^ 52 + 1) →
  1440 * U * (2 ^ 52 - 1) ≤ m * Vs * 2 ^ 52 →
  Vp * 2 ^ 52 ≤ w * Vs * (2 ^ 52 + 1) →
  w * Vs * (2 ^ 52 - 1) ≤ Vp * 2 ^ 52 →
  1440 * w / m - 1 ≤ Vp / U ≤ 1440 * w / m ∧
  ((1440 * w) mod m ≠ 0 → Vp / U = 1440 * w / m).
Proof.
  intros HU Hw Hwm Hm Hs1 Hs2 Hp1 Hp2.
  set (K := 2 ^ 52) in *.
  assert (HK : K = 4503599627370496) by reflexivity.
  set (N := 1440 * w).
  pose proof (Z.div_mod N m ltac:(lia)) as Hdiv.
  pose proof (Z.mod_pos_bound N m ltac:(lia)) as Hmod.
  set (f := N / m) in *. set (r := N mod m) in *.
  assert (HN : N < 1440 * 2 ^ 32) by (unfold N; lia).
  assert (Hf : 0 ≤ f) by (apply Z.div_pos; unfold N; lia).
  (* the product against the exact value, both ways *)
  assert (H1 : Vp * (m * K * K) ≤ N * U * ((K + 1) * (K + 1))).
  { transitivity (w * (K + 1) * (m * Vs * K)).
    - replace (Vp * (m * K * K)) with (Vp * K * (m * K)) by ring.
      replace (w * (K + 1) * (m * Vs * K))
        with (w * Vs * (K + 1) * (m * K)) by ring.
      apply Z.mul_le_mono_nonneg_r; [lia | exact Hp1].
    - replace (N * U * ((K + 1) * (K + 1)))
        with (w * (K + 1) * (1440 * U * (K + 1))) by (unfold N; ring).
      apply Z.mul_le_mono_nonneg_l; [lia | exact Hs1]. }
  assert (H2 : N * U * ((K - 1) * (K - 1)) ≤ Vp * (m * K * K)).
  { transitivity (w * (K - 1) * (m * Vs * K)).
    - replace (N * U * ((K - 1) * (K - 1)))
        with (w * (K - 1) * (1440 * U * (K - 1))) by (unfold N; ring).
      apply Z.mul_le_mono_nonneg_l; [lia | exact Hs2].
    - replace (w * (K - 1) * (m * Vs * K))
        with (w * Vs * (K - 1) * (m * K)) by ring.
      replace (Vp * (m * K * K)) with (Vp * K * (m * K)) by ring.
      apply Z.mul_le_mono_nonneg_r; [lia | exact Hp2]. }
  assert (HmKK : 0 < m * K * K) by nia.
  assert (H1' : Vp * (m * K * K) ≤ U * (N * ((K + 1) * (K + 1))))
    by (replace (U * (N * ((K + 1) * (K + 1))))
          with (N * U * ((K + 1) * (K + 1))) by ring; exact H1).
  assert (H2' : U * (N * ((K - 1) * (K - 1))) ≤ Vp * (m * K * K))
    by (replace (U * (N * ((K - 1) * (K - 1))))
          with (N * U * ((K - 1) * (K - 1))) by ring; exact H2).
  (* below the next integer *)
  assert (Hup : Vp < U * (f + 1)).
  { destruct (Z.lt_ge_cases Vp (U * (f + 1))) as [| Hge]; [done |].
    exfalso.
    assert (Ha : U * ((f + 1) * m * (K * K)) ≤ Vp * (m * K * K)).
    { replace (U * ((f + 1) * m * (K * K)))
        with (U * (f + 1) * (m * K * K)) by ring.
      apply Z.mul_le_mono_nonneg_r; lia. }
    pose proof (Z.le_trans _ _ _ Ha H1') as Hc.
    apply Z.mul_le_mono_pos_l in Hc; [| lia].
    assert ((N + 1) * (K * K) ≤ (f + 1) * m * (K * K))
      by (apply Z.mul_le_mono_nonneg_r; nia).
    nia. }
  assert (Hlow : ∀ g, 0 ≤ g → g * m * (K * K) ≤ N * ((K - 1) * (K - 1)) →
                      U * g ≤ Vp).
  { intros g Hg Hle.
    destruct (Z.le_gt_cases (U * g) Vp) as [| Hgt]; [done |]. exfalso.
    assert (Ha : Vp * (m * K * K) < U * (g * m * (K * K))).
    { replace (U * (g * m * (K * K))) with (U * g * (m * K * K)) by ring.
      apply Zmult_lt_compat_r; lia. }
    pose proof (Z.le_lt_trans _ _ _ H2' Ha) as Hc.
    apply Z.mul_lt_mono_pos_l in Hc; lia. }
  assert (Hlo1 : U * (f - 1) ≤ Vp).
  { destruct (decide (f = 0)) as [-> | Hf0].
    - assert (0 ≤ Vp); [| lia].
      destruct (Z.le_gt_cases 0 Vp) as [| Hneg]; [done |]. exfalso.
      assert (0 ≤ N * U * ((K - 1) * (K - 1))) by (unfold N; nia).
      assert (Vp * (m * K * K) < 0); [| lia].
      apply Z.mul_neg_pos; nia.
    - apply Hlow; [lia |]. nia. }
  split.
  - split.
    + apply Z.div_le_lower_bound; lia.
    + assert (Vp / U < f + 1); [| lia].
      apply Z.div_lt_upper_bound; lia.
  - intros Hr.
    assert (U * f ≤ Vp) by (apply Hlow; [lia |]; nia).
    assert (f ≤ Vp / U) by (apply Z.div_le_lower_bound; lia).
    assert (Vp / U < f + 1) by (apply Z.div_lt_upper_bound; lia).
    lia.
Qed.

End float_facts.

(** ** Geometry *)

Section geometry_facts.

Import SpecFloat FloatOps Py Geometry.

Lemma make_multiple_of_16_spec (n : Z) :
  (16 | make_multiple_of_16 n) ∧ n ≤ make_multiple_of_16 n < n + 16.
Proof.
  unfold make_multiple_of_16. split.
  - apply Z.divide_factor_r.
  - pose proof (Z.div_mod (n + 15) 16 ltac:(lia)) as Hdm.
    pose proof (Z.mod_pos_bound (n + 15) 16 ltac:(lia)) as Hb.
    lia.
Qed.

Lemma tokens_NoDup : NoDup (ASPECT_RATIOS_items.*1).
Proof. compute_done. Qed.

Lemma ASPECT_RATIOS_lookup (tok : string) (wh : Z * Z) :
  ASPECT_RATIOS !! tok = Some wh ↔ (tok, wh) ∈ ASPECT_RATIOS_items.
Proof.
  unfold ASPECT_RATIOS. symmetry.
  apply elem_of_list_to_map, tokens_NoDup.
Qed.

(** C8. Each of the 11 aspect-ratio tokens resolves to exactly the pair
    the table lists for it, and both coordinates of every listed pair
    are divisible by 16. *)
Theorem aspect_ratio_tokens_resolve_to_table :
  length ASPECT_RATIOS_items = 11%nat ∧
  size ASPECT_RATIOS = 11%nat ∧
  Forall (λ item,
            aspect_ratio_to_width_height item.1 = Ok item.2 ∧
            (16 | item.2.1) ∧ (16 | item.2.2))
         ASPECT_RATIOS_items ∧
  map_Forall (λ _ wh, (16 | wh.1) ∧ (16 | wh.2)) ASPECT_RATIOS.
Proof.
  assert (Hdiv : Forall (λ item : string * (Z * Z),
                   (16 | item.2.1) ∧ (16 | item.2.2)) ASPECT_RATIOS_items).
  { repeat constructor; simpl;
      (apply Z.mod_divide; [lia | reflexivity]). }
  split; [reflexivity |]. split; [compute_done |]. split.
  - apply Forall_forall. intros [tok wh] Hin. simpl.
    split; [| exact (proj1 (Forall_forall _ _) Hdiv _ Hin)].
    unfold aspect_ratio_to_width_height.
    apply ASPECT_RATIOS_lookup in Hin. by rewrite Hin.
  - intros tok wh Hl. apply ASPECT_RATIOS_lookup in Hl.
    exact (proj1 (Forall_forall _ _) Hdiv _ Hl).
Qed.

Lemma checked_normal (x : spec_float) :
  normal x → checked x = Ok (SF2Prim x).
Proof. by destruct x as [| | | [] m e]. Qed.

Lemma ltb_normal (x y : spec_float) :
  normal x → normal y →
  PrimFloat.ltb (SF2Prim x) (SF2Prim y)
  = bool_decide (magnitude x < magnitude y).
Proof.
  intros Hx Hy.
  rewrite FloatAxioms.ltb_spec, !normal_Prim2SF by done.
  by apply SFltb_normal.
Qed.

(** On small integers the rounded quotient and the rounded conversion
    are what the division and the conversion of the processor give. *)
Example truediv_is_the_hardware_quotient :
  forallb (λ k,
    let fk := PrimFloat.of_uint63 (Uint63.of_Z (Z.of_nat k)) in
    match truediv MAX_IMAGE_SIZE (Z.of_nat k), float_of_int (Z.of_nat k) with
    | Ok q, Ok x =>
        PrimFloat.eqb q (PrimFloat.div 1440%float fk) && PrimFloat.eqb x fk
    | _, _ => false
    end) (seq 1 5000) = true.
Proof. vm_compute. reflexivity. Qed.

(** [1440 / k] for an extent [k]. *)
Lemma truediv_extent (k : Z) :
  0 < k < 2 ^ 32 →
  ∃ x, truediv MAX_IMAGE_SIZE k = Ok (SF2Prim x) ∧ normal x ∧
       k * magnitude x * 2 ^ 52 ≤ 1440 * 2 ^ 1074 * (2 ^ 52 + 1) ∧
       1440 * 2 ^ 1074 * (2 ^ 52 - 1) ≤ k * magnitude x * 2 ^ 52 ∧
       (k ≤ 1440 → 2 ^ 1074 ≤ magnitude x).
Proof.
  intros [Hk Hlt]. unfold truediv, MAX_IMAGE_SIZE.
  destruct (decide (k = 0)) as [| _]; [lia |].
  pose proof (Zdigits2_pos k Hk) as Hd1.
  pose proof (Zdigits2_le k 32 ltac:(lia) Hlt ltac:(lia)) as Hd2.
  destruct (SFdiv_exact_int 1440 k) as (Hn & H1 & H2 & H3);
    [lia | lia | change (Zdigits2 1440) with 11; lia |].
  eexists. split; [by apply checked_normal |]. done.
Qed.

(** [float(w)] for an extent [w]. *)
Lemma float_of_extent (w : Z) :
  0 < w < 2 ^ 32 →
  ∃ x, float_of_int w = Ok (SF2Prim x) ∧ normal x ∧
       magnitude x = w * 2 ^ 1074 ∧ -53 < exponent x < -20.
Proof.
  intros [Hw Hlt]. unfold float_of_int.
  destruct (binary_normalize_exact w) as [Hn Hm].
  { split; [done |]. eapply Z.lt_le_trans; [exact Hlt |].
    by apply Z.pow_le_mono_r. }
  eexists. split; [by apply checked_normal |]. split; [done |].
  split; [done |].
  pose proof (pow2_pos 1074 ltac:(lia)).
  pose proof (normal_exponent _ 1074 1106 Hn) as He.
  rewrite Hm in He. apply He; [| | lia].
  - assert (1 * 2 ^ 1074 ≤ w * 2 ^ 1074)
      by (apply Z.mul_le_mono_nonneg_r; lia). lia.
  - change (2 ^ 1106) with (2 ^ 32 * 2 ^ 1074).
    apply Zmult_lt_compat_r; lia.
Qed.


Lemma one_as_normal :
  ∃ x1, Py.one = SF2Prim x1 ∧ normal x1 ∧ magnitude x1 = 2 ^ 1074.
Proof.
  exists (Prim2SF 1%float). destruct one_normal as (_ & Hn & Hm).
  split; [by rewrite FloatAxioms.SF2Prim_Prim2SF | done].
Qed.

(** The scale of an image: one when no edge exceeds 1440, and
    otherwise within one part in [2^52] of 1440 over the longer edge. *)
Lemma image_scale_extent (w h : Z) :
  0 < w < 2 ^ 32 → 0 < h < 2 ^ 32 →
  ∃ scale,
    image_scale w h = Ok scale ∧
    (Z.max w h ≤ 1440 → PrimFloat.ltb scale Py.one = false) ∧
    (1440 < Z.max w h →
     PrimFloat.ltb scale Py.one = true ∧
     ∃ xs, scale = SF2Prim xs ∧ normal xs ∧
           magnitude xs < 2 ^ 1074 ∧
           Z.max w h * magnitude xs * 2 ^ 52
           ≤ 1440 * 2 ^ 1074 * (2 ^ 52 + 1) ∧
           1440 * 2 ^ 1074 * (2 ^ 52 - 1)
           ≤ Z.max w h * magnitude xs * 2 ^ 52).
Proof.
  intros Hw Hh.
  destruct (truediv_extent w Hw) as (xw & Hqw & Hnw & Hw1 & Hw2 & Hw3).
  destruct (truediv_extent h Hh) as (xh & Hqh & Hnh & Hh1 & Hh2 & Hh3).
  destruct one_as_normal as (x1 & Hone & Hn1 & Hm1).
  unfold image_scale. rewrite Hqw, Hqh. cbn.
  eexists. split; [reflexivity |].
  unfold min3, min_step. rewrite Hone.
  rewrite (ltb_normal xh xw) by done.
  set (U := 2 ^ 1074) in *.
  assert (HU : 0 < U) by (apply pow2_pos; lia).
  set (Vw := magnitude xw) in *. set (Vh := magnitude xh) in *.
  set (K := 2 ^ 52) in *.
  assert (HK : K = 4503599627370496) by reflexivity.
  (* the smaller quotient *)
  assert (Hc : ∃ xc, (if bool_decide (Vh < Vw) then SF2Prim xh
                      else SF2Prim xw) = SF2Prim xc ∧
                     normal xc ∧
                     magnitude xc ≤ Vw ∧ magnitude xc ≤ Vh ∧
                     (magnitude xc = Vw ∨ magnitude xc = Vh)).
  { case_bool_decide.
    - exists xh. fold Vh. repeat split; try done; lia || auto.
    - exists xw. fold Vw. repeat split; try done; lia || auto. }
  destruct Hc as (xc & -> & Hnc & Hcw & Hch & Hcases).
  set (Vc := magnitude xc) in *.
  rewrite (ltb_normal x1 xc) by done. rewrite Hm1. fold Vc.
  split.
  - intros Hsmall.
    assert (U ≤ Vc) by (destruct Hcases as [-> | ->]; [apply Hw3 | apply Hh3]; lia).
    case_bool_decide.
    + rewrite (ltb_normal x1 x1) by done.
      apply bool_decide_eq_false_2. lia.
    + rewrite (ltb_normal xc x1) by done.
      apply bool_decide_eq_false_2. rewrite Hm1. fold Vc. lia.
  - intros Hbig.
    set (m := Z.max w h) in *.
    assert (Hup : m * Vc * K ≤ 1440 * U * (K + 1)).
    { destruct (Z.max_spec w h) as [[_ Hm] | [_ Hm]]; fold m in Hm.
      - etrans; [| exact Hh1]. rewrite Hm.
        apply Z.mul_le_mono_nonneg_r; [lia |].
        apply Z.mul_le_mono_nonneg_l; lia.
      - etrans; [| exact Hw1]. rewrite Hm.
        apply Z.mul_le_mono_nonneg_r; [lia |].
        apply Z.mul_le_mono_nonneg_l; lia. }
    assert (Hc0 : 0 < Vc).
    { destruct Hcases as [-> | ->]; nia. }
    assert (Hlo : 1440 * U * (K - 1) ≤ m * Vc * K).
    { destruct Hcases as [Heq | Heq]; rewrite Heq.
      - etrans; [exact Hw2 |].
        apply Z.mul_le_mono_nonneg_r; [lia |].
        apply Z.mul_le_mono_nonneg_r; [unfold Vw in *; lia | lia].
      - etrans; [exact Hh2 |].
        apply Z.mul_le_mono_nonneg_r; [lia |].
        apply Z.mul_le_mono_nonneg_r; [unfold Vh in *; lia | lia]. }
    assert (Hlt : Vc < U).
    { destruct (Z.lt_ge_cases Vc U) as [| Hge]; [done |]. exfalso.
      assert (1441 * U * K ≤ m * Vc * K).
      { apply Z.mul_le_mono_nonneg_r; [lia |].
        apply Z.mul_le_mono_nonneg; lia. }
      nia. }
    rewrite bool_decide_eq_false_2 by lia.
    rewrite (ltb_normal xc x1) by done. rewrite Hm1. fold Vc.
    split; [by apply bool_decide_eq_true_2 |].
    exists xc. done.
Qed.


(** An extent times the scale, truncated: what [1440 * w / m] is as
    an integer quotient, or one less when the division is exact and the
    rounded product falls short. *)
Lemma scaled_extent (w m : Z) (xs : spec_float) :
  0 < w → w ≤ m → m < 2 ^ 32 →
  normal xs → magnitude xs < 2 ^ 1074 →
  m * magnitude xs * 2 ^ 52 ≤ 1440 * 2 ^ 1074 * (2 ^ 52 + 1) →
  1440 * 2 ^ 1074 * (2 ^ 52 - 1) ≤ m * magnitude xs * 2 ^ 52 →
  ∃ x w1,
    mul_int_float w (SF2Prim xs) = Ok x ∧
    int_of_float x = Ok w1 ∧
    1440 * w / m - 1 ≤ w1 ≤ 1440 * w / m ∧
    ((1440 * w) mod m ≠ 0 → w1 = 1440 * w / m).
Proof.
  intros Hw Hwm Hm Hns Hlt Hs1 Hs2.
  destruct (float_of_extent w ltac:(lia)) as (xW & HfW & HnW & HmW & HeW).
  set (U := 2 ^ 1074) in *.
  assert (HU : 0 < U) by (apply pow2_pos; lia).
  set (Vs := magnitude xs) in *.
  set (K := 2 ^ 52) in *.
  assert (HK : K = 4503599627370496) by reflexivity.
  (* the exponent of the scale *)
  assert (Hlow : 2 ^ 1042 ≤ Vs).
  { destruct (Z.le_gt_cases (2 ^ 1042) Vs) as [| Hsmall]; [done |].
    exfalso.
    assert (0 ≤ Vs) by nia.
    assert (m * Vs * K ≤ 2 ^ 32 * 2 ^ 1042 * K).
    { apply Z.mul_le_mono_nonneg_r; [lia |].
      apply Z.mul_le_mono_nonneg; lia. }
    change (2 ^ 32 * 2 ^ 1042) with U in *. nia. }
  pose proof (normal_exponent xs 1042 1074 Hns Hlow Hlt ltac:(lia)) as Hes.
  destruct (SFmul_normal xW xs HnW Hns ltac:(lia)) as (Hnp & Hp1 & Hp2).
  set (xp := SFmul prec emax xW xs) in *.
  set (Vp := magnitude xp) in *.
  rewrite HmW in Hp1, Hp2. fold U K Vs in Hp1, Hp2.
  assert (Hp1' : Vp * K ≤ w * Vs * (K + 1)).
  { apply (Z.mul_le_mono_pos_l _ _ U); [lia |].
    etrans; [| etrans; [exact Hp1 |]]; apply Z.eq_le_incl; ring. }
  assert (Hp2' : w * Vs * (K - 1) ≤ Vp * K).
  { apply (Z.mul_le_mono_pos_l _ _ U); [lia |].
    etrans; [| etrans; [exact Hp2 |]]; apply Z.eq_le_incl; ring. }
  unfold mul_int_float. rewrite HfW. cbn.
  eexists _, (Vp / U). split; [reflexivity |].
  assert (HP : PrimFloat.mul (SF2Prim xW) (SF2Prim xs) = SF2Prim xp).
  { rewrite <- (FloatAxioms.SF2Prim_Prim2SF (PrimFloat.mul _ _)).
    by rewrite FloatAxioms.mul_spec, !normal_Prim2SF. }
  rewrite HP. split; [by apply int_of_float_normal |].
  by apply (scaled_extent_arith w m Vs Vp U).
Qed.


(** The scaled size of an image, case by case. *)
Lemma scaled_size_cases (w h : Z) :
  0 < w < 2 ^ 32 → 0 < h < 2 ^ 32 →
  ∃ w1 h1 : Z,
    scaled_size w h = Ok (w1, h1) ∧
    (Z.max w h ≤ 1440 → w1 = w ∧ h1 = h) ∧
    (1440 < Z.max w h →
     1440 * w / Z.max w h - 1 ≤ w1 ≤ 1440 * w / Z.max w h ∧
     1440 * h / Z.max w h - 1 ≤ h1 ≤ 1440 * h / Z.max w h ∧
     ((1440 * w) mod Z.max w h ≠ 0 → w1 = 1440 * w / Z.max w h) ∧
     ((1440 * h) mod Z.max w h ≠ 0 → h1 = 1440 * h / Z.max w h)).
Proof.
  intros Hw Hh.
  destruct (image_scale_extent w h Hw Hh) as (scale & Hs & Hsmall & Hbig).
  unfold scaled_size. rewrite Hs. cbn.
  destruct (Z.le_gt_cases (Z.max w h) 1440) as [Hle | Hgt].
  - rewrite (Hsmall Hle). exists w, h.
    split; [done |]. split; [done | lia].
  - destruct (Hbig Hgt) as (Hlt & xs & -> & Hn & Hone & H1 & H2).
    rewrite Hlt.
    destruct (scaled_extent w (Z.max w h) xs) as (x & w1 & Hx & Hw1 & Hbw);
      [lia.. | done | done | done | done |].
    destruct (scaled_extent h (Z.max w h) xs) as (y & h1 & Hy & Hh1 & Hbh);
      [lia.. | done | done | done | done |].
    rewrite Hx. cbn. rewrite Hw1. cbn. rewrite Hy. cbn. rewrite Hh1. cbn.
    exists w1, h1. split; [done |]. split; [lia |].
    intros _. destruct Hbw, Hbh. done.
Qed.

(** C7. For a seed image of natural extents [(w, h)], positive and
    below [2^32], the scale is [min(1440/w, 1440/h, 1)], that is 1440
    over the longer edge [m] when that edge exceeds 1440.  Then both extents are scaled down in
    proportion: each becomes the integer quotient [1440 * e / m], or
    one less where the division is exact and the rounded product falls
    short (as for 2205, which becomes 1439).  An image of at most 1440
    on both edges is not scaled.  Each extent is then rounded up to the
    next multiple of 16 by [((n + 15) // 16) * 16]: both resolved
    extents are divisible by 16, and the longer one of a scaled image
    is 1440. *)
Theorem seed_image_geometry (w h : Z) :
  0 < w < 2 ^ 32 → 0 < h < 2 ^ 32 →
  let m := Z.max w h in
  ∃ w1 h1 : Z,
    scaled_size w h = Ok (w1, h1) ∧
    (m ≤ 1440 → w1 = w ∧ h1 = h) ∧
    (1440 < m →
     1440 * w / m - 1 ≤ w1 ≤ 1440 * w / m ∧
     1440 * h / m - 1 ≤ h1 ≤ 1440 * h / m ∧
     ((1440 * w) mod m ≠ 0 → w1 = 1440 * w / m) ∧
     ((1440 * h) mod m ≠ 0 → h1 = 1440 * h / m)) ∧
    let w' := (w1 + 15) / 16 * 16 in
    let h' := (h1 + 15) / 16 * 16 in
    image_width_height w h = Ok (w', h') ∧
    (16 | w') ∧ (16 | h') ∧
    w1 ≤ w' < w1 + 16 ∧ h1 ≤ h' < h1 + 16 ∧
    (1440 < m → Z.max w' h' = 1440).
Proof.
  intros Hw Hh m.
  destruct (scaled_size_cases w h Hw Hh) as (w1 & h1 & Hsz & Hsmall & Hbig).
  fold m in Hsmall, Hbig.
  exists w1, h1. split; [exact Hsz |]. split; [exact Hsmall |].
  split; [exact Hbig |].
  destruct (make_multiple_of_16_spec w1) as [Hdw Hbw].
  destruct (make_multiple_of_16_spec h1) as [Hdh Hbh].
  unfold make_multiple_of_16 in *. cbv zeta.
  split; [unfold image_width_height; by rewrite Hsz |].
  split; [exact Hdw |]. split; [exact Hdh |].
  split; [exact Hbw |]. split; [exact Hbh |].
  intros Hm. destruct (Hbig Hm) as (Hw1 & Hh1 & _).
  destruct Hdw as [kw Hkw]. destruct Hdh as [kh Hkh].
  rewrite Hkw, Hkh in *.
  assert (Hmm : 1440 * m / m = 1440) by (apply Z.div_mul; lia).
  assert (Hwle : 1440 * w / m ≤ 1440).
  { apply Z.div_le_upper_bound; [lia |].
    rewrite (Z.mul_comm m). apply Z.mul_le_mono_nonneg_l; lia. }
  assert (Hhle : 1440 * h / m ≤ 1440).
  { apply Z.div_le_upper_bound; [lia |].
    rewrite (Z.mul_comm m). apply Z.mul_le_mono_nonneg_l; lia. }
  destruct (Z.max_spec w h) as [[_ Heq] | [_ Heq]]; fold m in Heq;
    rewrite <- Heq, Hmm in *; lia.
Qed.

Lemma seed_image_geometry_witness :
  0 < 3000 < 2 ^ 32 ∧ 0 < 2000 < 2 ^ 32 ∧
  image_width_height 3000 2000 = Ok (1440, 960).
Proof.
  assert (H1 : 0 < 3000 < 2 ^ 32) by done.
  assert (H2 : 0 < 2000 < 2 ^ 32) by done.
  split; [exact H1 |]. split; [exact H2 |].
  destruct (seed_image_geometry 3000 2000 H1 H2)
    as (w1 & h1 & _ & _ & Hbig & Himg & _).
  rewrite Himg.
  destruct (Hbig ltac:(done)) as (Hw1 & Hh1 & _).
  change (1440 * 3000 / Z.max 3000 2000) with 1440 in Hw1.
  change (1440 * 2000 / Z.max 3000 2000) with 960 in Hh1.
  assert (Hw : w1 = 1439 ∨ w1 = 1440) by lia.
  assert (Hh : h1 = 959 ∨ h1 = 960) by lia.
  by destruct Hw as [-> | ->], Hh as [-> | ->].
Defined.

(** The product is truncated as the binary64 number it is: 2205 times
    the rounded quotient 1440/2205 falls just short of 1440. *)
Example scaled_size_truncates :
  scaled_size 2205 100 = Ok (1439, 65) ∧
  image_width_height 2205 100 = Ok (1440, 80).
Proof. split; vm_compute; reflexivity. Qed.

(** Whatever the seed image, the [width] and [height] entries of
    [flux_kwargs] are the pair of the aspect-ratio token; the extents
    computed from the image only size the seed tensor. *)
Lemma flux_kwargs_width_height_from_token
    (aspect_ratio : string) (image : option (Z * Z))
    (prompt_strength : Py.float) (kw : FluxKwargs) :
  resolve_flux_kwargs aspect_ratio image prompt_strength = Ok kw →
  aspect_ratio_to_width_height aspect_ratio
  = Ok (kw_width kw, kw_height kw) ∧
  match image with
  | Some (iw, ih) =>
      ∃ w h, image_width_height iw ih = Ok (w, h) ∧
             kw_image kw = Some (h, w)
  | None => kw_image kw = None
  end.
Proof.
  unfold resolve_flux_kwargs.
  destruct (aspect_ratio_to_width_height aspect_ratio) as [[tw th] | e];
    simpl; [| discriminate].
  destruct image as [[iw ih] |]; simpl.
  - destruct (image_width_height iw ih) as [[w' h'] | e]; simpl;
      [| discriminate].
    unfold interpolate. simpl.
    destruct (decide (0 < h' ∧ 0 < w')); simpl; [| discriminate].
    intros [= <-]. simpl. split; [reflexivity |]. by exists w', h'.
  - intros [= <-]. by simpl.
Qed.

(** C1. A request with the token ["1:1"] and a 500x800 seed image: the
    extents derived from the image are 512x800, the seed tensor is
    resized to them, but the [width] and [height] handed to the pipeline
    are the token's 1024x1024. *)
Theorem seed_image_request_keeps_token_geometry :
  image_width_height 500 800 = Ok (512, 800) ∧
  aspect_ratio_to_width_height "1:1" = Ok (1024, 1024) ∧
  resolve_flux_kwargs "1:1" (Some (500, 800)) 0.5%float
  = Ok (mkFluxKwargs 1024 1024 (Some (800, 512)) (Some 0.5%float)).
Proof. repeat split; vm_compute; reflexivity. Qed.

End geometry_facts.

(** ** Seed *)

Section seed_facts.

Import Seed.

Lemma byte_value_bounds (b : Byte.byte) : 0 ≤ Z.of_N (Byte.to_N b) ≤ 255.
Proof. pose proof (Byte.to_N_bounded b). lia. Qed.

Lemma choose_seed_auto (src : nat → Byte.byte) :
  choose_seed None src
  = Z.of_N (Byte.to_N (src 0%nat)) * 256 + Z.of_N (Byte.to_N (src 1%nat)).
Proof. reflexivity. Qed.

(** C9. A request without a seed gets one made of exactly two random
    bytes, read big-endian: it lies in [0, 65535], and every value of
    that range is the seed of some pair of bytes.  A given seed is kept
    as it is. *)
Theorem auto_seed_is_two_bytes :
  (∀ src, length (urandom src 2) = 2%nat ∧
          choose_seed None src = int_from_bytes_big (urandom src 2) ∧
          0 ≤ choose_seed None src ≤ 65535) ∧
  (∀ v, 0 ≤ v ≤ 65535 → ∃ src, choose_seed None src = v) ∧
  (∀ seed src, choose_seed (Some seed) src = seed).
Proof.
  split; [| split].
  - intros src. split; [reflexivity |]. split; [reflexivity |].
    rewrite choose_seed_auto.
    pose proof (byte_value_bounds (src 0%nat)).
    pose proof (byte_value_bounds (src 1%nat)). lia.
  - intros v Hv.
    assert (Hb : ∀ n : Z, 0 ≤ n ≤ 255 →
                 ∃ b, Z.of_N (Byte.to_N b) = n).
    { intros n Hn. destruct (Byte.of_N (Z.to_N n)) as [b |] eqn:Hof.
      - exists b. apply Byte.to_of_N in Hof. lia.
      - apply Byte.of_N_None_iff in Hof. lia. }
    destruct (Hb (v / 256)) as [hi Hhi].
    { split; [apply Z.div_pos; lia |].
      apply Z.lt_succ_r, Z.div_lt_upper_bound; lia. }
    destruct (Hb (v mod 256)) as [lo Hlo].
    { pose proof (Z.mod_pos_bound v 256). lia. }
    exists (λ i, match i with O => hi | _ => lo end).
    rewrite choose_seed_auto, Hhi, Hlo.
    pose proof (Z.div_mod v 256). lia.
  - reflexivity.
Qed.

Lemma auto_seed_is_two_bytes_witness :
  0 ≤ 258 ≤ 65535 ∧ ∃ src, choose_seed None src = 258.
Proof.
  split; [lia |].
  exact (proj1 (proj2 auto_seed_is_two_bytes) 258 ltac:(lia)).
Defined.

End seed_facts.

(** ** Adapters *)

Section adapter_facts.

Import Adapters.

Variable path_exists : string → bool.

Ltac run := unfold mbind, mret, Eff_bind, Eff_ret, modify, raise, get; simpl.

Lemma names_length : length names = 26%nat.
Proof. reflexivity. Qed.

Lemma loads_of_cons f rest count n :
  names !! count = Some n →
  loads_of (f :: rest) count
  = LoadLoraWeights (local_path_of f) n :: loads_of rest (S count).
Proof. intros Hn. unfold loads_of. by rewrite (drop_S _ _ _ Hn). Qed.

Lemma attachments_of_cons f rest count n :
  names !! count = Some n →
  attachments_of (f :: rest) count
  = (n, local_path_of f) :: attachments_of rest (S count).
Proof. intros Hn. unfold attachments_of. by rewrite (drop_S _ _ _ Hn). Qed.

Lemma with_loads_nil count p : with_loads [] count p = p.
Proof.
  destruct p. unfold with_loads, loads_of, attachments_of. simpl.
  by rewrite !app_nil_r.
Qed.

Lemma load_each_app (l1 l2 : list string) (count : nat) (p : Predictor) :
  Forall (present path_exists) l1 →
  (count + length l1 ≤ 26)%nat →
  load_each path_exists (l1 ++ l2) count p
  = load_each path_exists l2 (count + length l1) (with_loads l1 count p).
Proof.
  revert count p. induction l1 as [| f l1 IH]; intros count p Hex Hlen.
  - simpl. by rewrite Nat.add_0_r, with_loads_nil.
  - apply Forall_cons in Hex as [Hf Hex]. simpl in Hlen. simpl.
    unfold present in Hf. rewrite Hf. simpl.
    destruct (names !! count) as [n |] eqn:Hn.
    2:{ apply lookup_ge_None in Hn. rewrite names_length in Hn. lia. }
    run. rewrite IH by (auto; lia).
    replace (count + S (length l1))%nat with (S count + length l1)%nat
      by lia.
    f_equal. unfold with_loads. simpl.
    rewrite (loads_of_cons _ _ _ _ Hn), (attachments_of_cons _ _ _ _ Hn).
    by rewrite <- !app_assoc.
Qed.

Lemma load_each_ok (l : list string) (count : nat) (p : Predictor) :
  Forall (present path_exists) l →
  (count + length l ≤ 26)%nat →
  load_each path_exists l count p
  = (Ok (count + length l)%nat, with_loads l count p).
Proof.
  intros Hex Hlen.
  rewrite <- (app_nil_r l) at 1. by rewrite load_each_app.
Qed.

(** The 27th name has no letter left: the loop stops there, with the
    adapters before it loaded. *)
Lemma load_each_full (l1 : list string) (f : string) (l2 : list string)
    (count : nat) (p : Predictor) :
  Forall (present path_exists) l1 →
  (count + length l1 = 26)%nat →
  present path_exists f →
  load_each path_exists (l1 ++ f :: l2) count p
  = (Raise IndexError, with_loads l1 count p).
Proof.
  intros Hex Hlen Hf.
  rewrite load_each_app by (auto; lia). rewrite Hlen. simpl.
  unfold present in Hf. by rewrite Hf.
Qed.

Lemma load_each_inv_ok (l : list string) (count n : nat) (p p' : Predictor) :
  load_each path_exists l count p = (Ok n, p') →
  (count ≤ 26)%nat →
  Forall (present path_exists) l ∧ (count + length l ≤ 26)%nat ∧
  n = (count + length l)%nat ∧ p' = with_loads l count p.
Proof.
  revert count p. induction l as [| f l IH]; intros count p Hrun Hc.
  - simpl in Hrun. injection Hrun as <- <-.
    rewrite with_loads_nil. simpl.
    split; [apply Forall_nil_2 |]. split; [lia |]. split; [lia | done].
  - simpl in Hrun.
    destruct (path_exists (local_path_of f)) eqn:Hf; simpl in Hrun;
      [| discriminate].
    destruct (names !! count) as [a |] eqn:Ha; [| discriminate].
    pose proof (lookup_lt_Some _ _ _ Ha) as Hlt.
    rewrite names_length in Hlt.
    revert Hrun. run. intros Hrun.
    apply IH in Hrun as (Hex & Hlen & -> & ->); [| lia].
    split; [by constructor |]. simpl. split; [lia |]. split; [lia |].
    unfold with_loads. simpl.
    rewrite (loads_of_cons _ _ _ _ Ha), (attachments_of_cons _ _ _ _ Ha).
    by rewrite <- !app_assoc.
Qed.

(** Whatever its outcome, the loop only makes weight loads and leaves
    the tracked list and the active set alone. *)
Lemma load_each_frame (l : list string) (count : nat) (p p' : Predictor)
    (r : result nat) :
  load_each path_exists l count p = (r, p') →
  last_loaded_loras p' = last_loaded_loras p ∧ active p' = active p ∧
  ∃ new, calls p' = calls p ++ new ∧
         Forall (λ c, is_load_lora_weights c = true) new.
Proof.
  revert count p. induction l as [| f l IH]; intros count p Hrun.
  - simpl in Hrun. injection Hrun as <- <-.
    split; [done |]. split; [done |]. exists []. by rewrite app_nil_r.
  - simpl in Hrun.
    destruct (path_exists (local_path_of f)); simpl in Hrun.
    2:{ injection Hrun as <- <-. split; [done |]. split; [done |].
        exists []. by rewrite app_nil_r. }
    destruct (names !! count) as [a |].
    2:{ injection Hrun as <- <-. split; [done |]. split; [done |].
        exists []. by rewrite app_nil_r. }
    revert Hrun. run. intros Hrun.
    apply IH in Hrun as (Ht & Hact & new & Hcalls & Hnew). simpl in *.
    split; [done |]. split; [done |].
    exists (LoadLoraWeights (local_path_of f) a :: new).
    split; [by rewrite Hcalls, <- app_assoc | by constructor].
Qed.

Lemma load_loras_ok (hf : list string) (scales : list Py.float)
    (p : Predictor) :
  Forall (present path_exists) hf →
  (length hf ≤ 26)%nat →
  load_loras path_exists hf scales p
  = (Ok (),
     mkPredictor (NameList hf) (attached p ++ attachments_of hf 0)
       (Some (take (length hf) names, take (length hf) scales))
       (calls p ++ [LoadLoras hf scales] ++ loads_of hf 0
        ++ [SetAdapters (take (length hf) names)
              (take (length hf) scales)])).
Proof.
  intros Hex Hlen. unfold load_loras. run.
  rewrite load_each_ok by (auto; lia). simpl.
  unfold set_last_loaded_loras, set_adapters. run.
  by rewrite <- !app_assoc.
Qed.

Lemma load_loras_inv_ok (hf : list string) (scales : list Py.float)
    (p p' : Predictor) (u : ()) :
  load_loras path_exists hf scales p = (Ok u, p') →
  Forall (present path_exists) hf ∧ (length hf ≤ 26)%nat.
Proof.
  unfold load_loras. run.
  destruct (load_each path_exists hf 0 _) as [[n | e] p1] eqn:Hrun;
    [| discriminate].
  intros _. apply load_each_inv_ok in Hrun as (Hex & Hlen & _); [| lia].
  split; [done | lia].
Qed.

(** A failing [load_loras] leaves the tracked list as it was and makes
    no [set_adapters] call. *)
Lemma load_loras_raise (hf : list string) (scales : list Py.float)
    (p p' : Predictor) (e : exn) :
  load_loras path_exists hf scales p = (Raise e, p') →
  last_loaded_loras p' = last_loaded_loras p ∧
  ∃ new, calls p' = calls p ++ LoadLoras hf scales :: new ∧
         Forall (λ c, is_load_lora_weights c = true) new.
Proof.
  unfold load_loras. run.
  destruct (load_each path_exists hf 0 _) as [[n | e'] p1] eqn:Hrun.
  - unfold set_last_loaded_loras, set_adapters. run. discriminate.
  - intros [= <- <-].
    apply load_each_frame in Hrun as (Ht & _ & new & Hcalls & Hnew).
    simpl in *. split; [done |]. exists new.
    split; [by rewrite Hcalls, <- app_assoc | done].
Qed.

(** The three ways through lines 258-269. *)
Lemma apply_loras_empty (sc : option (list Py.float)) (p : Predictor) :
  apply_loras path_exists [] sc p = (Ok None, unloaded p).
Proof. reflexivity. Qed.

Lemma apply_loras_same (hf : list string) (sc : option (list Py.float))
    (p : Predictor) :
  hf ≠ [] →
  last_loaded_loras p = NameList hf →
  apply_loras path_exists hf sc p = (Ok (Some 1%float), p).
Proof.
  intros Hne Ht. destruct hf as [| f l]; [done |].
  unfold apply_loras. run. rewrite Ht.
  rewrite bool_decide_eq_false_2 by (intros H; by apply H).
  reflexivity.
Qed.

Lemma apply_loras_other (hf : list string) (sc : option (list Py.float))
    (p : Predictor) :
  hf ≠ [] →
  last_loaded_loras p ≠ NameList hf →
  apply_loras path_exists hf sc p
  = match load_loras path_exists hf (scales_for hf sc) (unloaded p) with
    | (Ok _, p') => (Ok (Some 1%float), p')
    | (Raise e, p') => (Raise e, p')
    end.
Proof.
  intros Hne Ht. destruct hf as [| f l]; [done |].
  unfold apply_loras. run.
  rewrite bool_decide_eq_true_2 by congruence.
  unfold unload_lora_weights. run. unfold unloaded.
  by destruct (load_loras _ _ _ _) as [[[] | e] p'].
Qed.

Lemma apply_loras_reload (hf : list string) (sc : option (list Py.float))
    (p : Predictor) :
  hf ≠ [] →
  last_loaded_loras p ≠ NameList hf →
  Forall (present path_exists) hf →
  (length hf ≤ 26)%nat →
  apply_loras path_exists hf sc p
  = (Ok (Some 1%float), reloaded hf (scales_for hf sc) p).
Proof.
  intros Hne Ht Hex Hlen.
  rewrite apply_loras_other, load_loras_ok by done.
  unfold reloaded, unloaded. simpl. by rewrite <- !app_assoc.
Qed.

Lemma apply_loras_inv_ok (hf : list string) (sc : option (list Py.float))
    (p p' : Predictor) (j : option Py.float) :
  hf ≠ [] →
  last_loaded_loras p ≠ NameList hf →
  apply_loras path_exists hf sc p = (Ok j, p') →
  Forall (present path_exists) hf ∧ (length hf ≤ 26)%nat ∧
  j = Some 1%float ∧ p' = reloaded hf (scales_for hf sc) p.
Proof.
  intros Hne Ht Hrun.
  assert (Hex : Forall (present path_exists) hf ∧ (length hf ≤ 26)%nat).
  { rewrite apply_loras_other in Hrun by done.
    destruct (load_loras _ _ _ _) as [[u | e] p1] eqn:Hl; [| discriminate].
    by apply load_loras_inv_ok in Hl. }
  destruct Hex as [Hex Hlen]. split; [done |]. split; [done |].
  rewrite apply_loras_reload in Hrun by done.
  by injection Hrun as <- <-.
Qed.

Lemma apply_loras_ok_tracked (hf : list string)
    (sc : option (list Py.float)) (p p' : Predictor) (j : option Py.float) :
  hf ≠ [] →
  apply_loras path_exists hf sc p = (Ok j, p') →
  j = Some 1%float ∧ last_loaded_loras p' = NameList hf.
Proof.
  intros Hne Hrun.
  destruct (decide (last_loaded_loras p = NameList hf)) as [Ht | Ht].
  - rewrite apply_loras_same in Hrun by done. by injection Hrun as <- <-.
  - by apply apply_loras_inv_ok in Hrun as (_ & _ & -> & ->).
Qed.

(** What a request leaves in the tracked list and, when it raises, in
    the call log. *)
Lemma apply_loras_raise (hf : list string) (sc : option (list Py.float))
    (p p' : Predictor) (e : exn) :
  apply_loras path_exists hf sc p = (Raise e, p') →
  last_loaded_loras p' = last_loaded_loras p ∧
  ∃ new, calls p'
         = calls p
           ++ UnloadLoraWeights :: LoadLoras hf (scales_for hf sc) :: new ∧
         Forall (λ c, is_load_lora_weights c = true) new.
Proof.
  intros Hrun. destruct hf as [| f l]; [discriminate |].
  destruct (decide (last_loaded_loras p = NameList (f :: l))) as [Ht | Ht].
  { rewrite apply_loras_same in Hrun by done. discriminate. }
  rewrite apply_loras_other in Hrun by done.
  destruct (load_loras _ _ _ _) as [[u | e'] p1] eqn:Hl; [discriminate |].
  injection Hrun as <- <-.
  apply load_loras_raise in Hl as (Ht' & new & Hcalls & Hnew).
  split; [done |]. exists new. simpl in Hcalls.
  split; [by rewrite Hcalls, <- app_assoc | done].
Qed.

End adapter_facts.

Section call_counting.

Import Adapters.

Lemma new_calls_app (p p' : Predictor) (new : list call) :
  calls p' = calls p ++ new → new_calls p p' = new.
Proof. intros H. unfold new_calls. rewrite H. apply drop_app_length. Qed.

Lemma new_calls_same (p : Predictor) : new_calls p p = [].
Proof. unfold new_calls. apply drop_all. Qed.

Lemma count_calls_app (kind : call → bool) (l k : list call) :
  count_calls kind (l ++ k) = (count_calls kind l + count_calls kind k)%nat.
Proof. unfold count_calls. by rewrite List.filter_app, length_app. Qed.

Lemma loads_of_length (l : list string) (count : nat) :
  length (loads_of l count) = (length l `min` (26 - count))%nat.
Proof.
  unfold loads_of. by rewrite length_zip_with, length_drop, names_length.
Qed.

Lemma loads_of_all_loads (l : list string) (count : nat) :
  Forall (λ c, is_load_lora_weights c = true) (loads_of l count).
Proof.
  unfold loads_of. generalize (drop count names).
  induction l as [| f l IH]; intros [| n ns]; simpl; constructor; auto.
Qed.

Lemma count_calls_all (kind : call → bool) (cs : list call) :
  Forall (λ c, kind c = true) cs → count_calls kind cs = length cs.
Proof.
  unfold count_calls. induction 1 as [| c cs Hc _ IH]; simpl; [done |].
  rewrite Hc. simpl. by rewrite IH.
Qed.

Lemma count_calls_none (kind : call → bool) (cs : list call) :
  Forall (λ c, kind c = false) cs → count_calls kind cs = 0%nat.
Proof.
  unfold count_calls. induction 1 as [| c cs Hc _ IH]; simpl; [done |].
  by rewrite Hc.
Qed.

Lemma loads_are_not (kind : call → bool) (cs : list call) :
  (∀ path name, kind (LoadLoraWeights path name) = false) →
  Forall (λ c, is_load_lora_weights c = true) cs →
  count_calls kind cs = 0%nat.
Proof.
  intros Hk Hcs. apply count_calls_none.
  eapply Forall_impl; [exact Hcs |]. by intros [] Hc; simplify_eq/=.
Qed.

Lemma new_calls_reloaded (hf : list string) (scales : list Py.float)
    (p : Predictor) :
  new_calls p (reloaded hf scales p)
  = [UnloadLoraWeights; LoadLoras hf scales] ++ loads_of hf 0
    ++ [SetAdapters (take (length hf) names) (take (length hf) scales)].
Proof. by apply new_calls_app. Qed.

(** The tracked list always fits the 26 letters. *)
Lemma reachable_tracked_fits (p : Predictor) :
  reachable p →
  ∀ l, last_loaded_loras p = NameList l → (length l ≤ 26)%nat.
Proof.
  induction 1 as [| path_exists hf sc p r p' Hreach IH Hrun]; [done |].
  intros l Hl.
  destruct hf as [| f hf'].
  { rewrite apply_loras_empty in Hrun. injection Hrun as <- <-.
    by apply IH. }
  destruct r as [j | e].
  - destruct (decide (last_loaded_loras p = NameList (f :: hf'))) as [Ht | Ht].
    + rewrite apply_loras_same in Hrun by done.
      injection Hrun as <- <-. by apply IH.
    + apply apply_loras_inv_ok in Hrun as (_ & Hlen & _ & ->); [| done..].
      simpl in Hl. by injection Hl as <-.
  - apply apply_loras_raise in Hrun as [Ht _]. apply IH. congruence.
Qed.

End call_counting.

Section adapter_claims.

Import Adapters.

(** C2. Two requests in a row with the same non-empty adapter list, the
    first of which returns: the second one changes nothing and makes no
    call.  When the first had to swap the adapters in, [load_loras] is
    entered exactly once over the two requests together, and each
    adapter's weights are loaded once. *)
Theorem same_adapters_twice_swap_once
    (path_exists : string → bool) (hf_loras : list string)
    (lora_scales : option (list Py.float)) (p p1 : Predictor)
    (j : option Py.float) :
  hf_loras ≠ [] →
  apply_loras path_exists hf_loras lora_scales p = (Ok j, p1) →
  ∃ p2,
    apply_loras path_exists hf_loras lora_scales p1 = (Ok j, p2) ∧
    p2 = p1 ∧ new_calls p1 p2 = [] ∧
    (last_loaded_loras p ≠ NameList hf_loras →
     is_reload (new_calls p p1) = true ∧
     count_calls is_load_loras (new_calls p p2) = 1%nat ∧
     count_calls is_load_lora_weights (new_calls p p2) = length hf_loras).
Proof.
  intros Hne Hrun. exists p1.
  destruct (apply_loras_ok_tracked _ _ _ _ _ _ Hne Hrun) as [-> Ht1].
  split; [by apply apply_loras_same |]. split; [done |].
  split; [apply new_calls_same |].
  intros Ht.
  apply apply_loras_inv_ok in Hrun as (Hex & Hlen & _ & ->); [| done..].
  rewrite new_calls_reloaded.
  rewrite !count_calls_app.
  rewrite (loads_are_not is_load_loras (loads_of hf_loras 0))
    by (done || apply loads_of_all_loads).
  rewrite (count_calls_all is_load_lora_weights (loads_of hf_loras 0))
    by apply loads_of_all_loads.
  rewrite loads_of_length. unfold count_calls. simpl.
  split; [done |]. split; [done | lia].
Qed.

Lemma same_adapters_twice_swap_once_witness :
  let p1 := (apply_loras all_present default_loras None after_setup).2 in
  default_loras ≠ [] ∧
  last_loaded_loras after_setup ≠ NameList default_loras ∧
  apply_loras all_present default_loras None p1 = (Ok (Some 1%float), p1) ∧
  count_calls is_load_loras (new_calls after_setup p1) = 1%nat.
Proof.
  intros p1.
  assert (H1 : default_loras ≠ []) by done.
  assert (H2 : last_loaded_loras after_setup ≠ NameList default_loras)
    by done.
  split; [exact H1 |]. split; [exact H2 |].
  destruct (same_adapters_twice_swap_once all_present default_loras None
              after_setup p1 (Some 1%float) H1 eq_refl)
    as (p2 & Hrun & -> & _ & Hswap).
  split; [exact Hrun |]. by destruct (Hswap H2) as (_ & -> & _).
Defined.

(** C2 as stated fails.  For the empty adapter list the second of two
    requests is no no-op, it unloads again, and the loading routine is
    not entered at all.  For a list whose second file is missing both
    requests raise, the loading routine is entered twice and the first
    file is loaded twice. *)
Lemma same_adapters_twice_counterexample :
  let p1 := (apply_loras all_present [] None after_setup).2 in
  let p2 := (apply_loras all_present [] None p1).2 in
  let only_default := λ path : string,
    bool_decide (path = "loras/Cyberpunk Anime.safetensors"%string) in
  let two := default_loras ++ ["other.safetensors"%string] in
  let q1 := (apply_loras only_default two None after_setup).2 in
  let q2 := (apply_loras only_default two None q1).2 in
  ¬ (new_calls p1 p2 = []) ∧
  ¬ (count_calls is_load_loras (new_calls after_setup p2) = 1%nat) ∧
  (apply_loras only_default two None after_setup).1
  = Raise (FileNotFoundError
             "Could not find LoRA file at: loras/other.safetensors") ∧
  (apply_loras only_default two None q1).1
  = Raise (FileNotFoundError
             "Could not find LoRA file at: loras/other.safetensors") ∧
  ¬ (count_calls is_load_loras (new_calls after_setup q2) = 1%nat) ∧
  count_calls is_load_lora_weights (new_calls after_setup q2) = 2%nat.
Proof.
  split; [| split; [| split; [| split; [| split]]]].
  - vm_compute. discriminate.
  - vm_compute. discriminate.
  - vm_compute. reflexivity.
  - vm_compute. reflexivity.
  - vm_compute. discriminate.
  - vm_compute. reflexivity.
Qed.

(** C3. After the default adapter was loaded, a request with an empty
    adapter list unloads every adapter but leaves the tracked list as it
    was; the next request for the default adapter is then taken for
    already served, and runs with no adapter attached. *)
Theorem empty_request_keeps_tracked_list :
  let p1 := (apply_loras all_present default_loras None after_setup).2 in
  let p2 := (apply_loras all_present [] None p1).2 in
  attached p1 = [("a", "loras/Cyberpunk Anime.safetensors")]%string ∧
  apply_loras all_present [] None p1 = (Ok None, p2) ∧
  attached p2 = [] ∧ active p2 = None ∧
  last_loaded_loras p2 = NameList default_loras ∧
  apply_loras all_present default_loras None p2 = (Ok (Some 1%float), p2).
Proof. vm_compute. repeat split. Qed.




Lemma load_each_over (path_exists : string → bool) (l : list string)
    (p : Predictor) :
  (27 ≤ length l)%nat →
  Forall (present path_exists) (take 27 l) →
  load_each path_exists l 0 p
  = (Raise IndexError, with_loads (take 26 l) 0 p).
Proof.
  intros Hlen Hex.
  destruct (drop 26 l) as [| f l2] eqn:Hdrop.
  { apply (f_equal length) in Hdrop. rewrite length_drop in Hdrop.
    simpl in Hdrop. lia. }
  assert (Hsplit : take 26 l ++ f :: l2 = l)
    by (by rewrite <- Hdrop, take_drop).
  assert (Hl1 : length (take 26 l) = 26%nat)
    by (rewrite length_take; lia).
  assert (H27 : take 27 l = take 26 l ++ [f]).
  { rewrite <- Hsplit at 1. rewrite take_app, Hl1.
    rewrite take_ge by lia. reflexivity. }
  rewrite H27 in Hex. apply Forall_app in Hex as [Hex1 Hexf].
  rewrite Forall_singleton in Hexf.
  rewrite <- Hsplit at 1. by apply load_each_full.
Qed.

(** C5, as the code has it.  A request that names 27 or more adapters
    never returns.  When the files of its first 27 names are there, it
    fails with the index error of the 27th name, after the earlier
    adapters were unloaded and the first 26 weight files were loaded:
    26 weight loads precede the failure, no adapter is made active and
    the tracked list is left as it was. *)
Theorem too_many_adapters_fail_after_26_loads
    (path_exists : string → bool) (hf_loras : list string)
    (lora_scales : option (list Py.float)) (p : Predictor) :
  reachable p →
  (27 ≤ length hf_loras)%nat →
  (∀ j p', apply_loras path_exists hf_loras lora_scales p ≠ (Ok j, p')) ∧
  (Forall (present path_exists) (take 27 hf_loras) →
   ∃ p',
     apply_loras path_exists hf_loras lora_scales p
     = (Raise IndexError, p') ∧
     new_calls p p'
     = [UnloadLoraWeights;
        LoadLoras hf_loras (scales_for hf_loras lora_scales)]
       ++ loads_of (take 26 hf_loras) 0 ∧
     count_calls is_load_lora_weights (new_calls p p') = 26%nat ∧
     count_calls is_set_adapters (new_calls p p') = 0%nat ∧
     last_loaded_loras p' = last_loaded_loras p).
Proof.
  intros Hreach Hlen.
  assert (Hne : hf_loras ≠ []) by (intros ->; simpl in Hlen; lia).
  assert (Ht : last_loaded_loras p ≠ NameList hf_loras).
  { intros Ht. apply (reachable_tracked_fits _ Hreach) in Ht. lia. }
  split.
  - intros j p' Hrun.
    apply apply_loras_inv_ok in Hrun as (_ & Hlen' & _); [| done..]. lia.
  - intros Hex.
    assert (Hl1 : length (take 26 hf_loras) = 26%nat)
      by (rewrite length_take; lia).
    eexists. split.
    + rewrite apply_loras_other by done. unfold load_loras.
      unfold mbind, Eff_bind, modify. simpl.
      rewrite load_each_over by done.
      reflexivity.
    + set (scales := scales_for hf_loras lora_scales).
      assert (Hnew : new_calls p
                (with_loads (take 26 hf_loras) 0
                   (record (LoadLoras hf_loras scales) (unloaded p)))
              = [UnloadLoraWeights; LoadLoras hf_loras scales]
                ++ loads_of (take 26 hf_loras) 0).
      { apply new_calls_app. simpl. by rewrite <- !app_assoc. }
      rewrite Hnew. split; [done |].
      rewrite !count_calls_app.
      rewrite (count_calls_all is_load_lora_weights (loads_of _ 0))
        by apply loads_of_all_loads.
      rewrite (loads_are_not is_set_adapters (loads_of _ 0))
        by (done || apply loads_of_all_loads).
      rewrite loads_of_length, Hl1. done.
Qed.

Lemma too_many_adapters_fail_after_26_loads_witness :
  reachable after_setup ∧ (27 ≤ length twenty_seven_loras)%nat ∧
  Forall (present all_present) (take 27 twenty_seven_loras) ∧
  ∃ p', apply_loras all_present twenty_seven_loras None after_setup
        = (Raise IndexError, p') ∧
        count_calls is_load_lora_weights (new_calls after_setup p')
        = 26%nat.
Proof.
  assert (H1 : reachable after_setup) by constructor.
  assert (H2 : (27 ≤ length twenty_seven_loras)%nat) by (simpl; lia).
  assert (H3 : Forall (present all_present) (take 27 twenty_seven_loras))
    by (apply Forall_forall; reflexivity).
  split; [exact H1 |]. split; [exact H2 |]. split; [exact H3 |].
  destruct (too_many_adapters_fail_after_26_loads all_present
              twenty_seven_loras None after_setup H1 H2) as [_ Hfail].
  destruct (Hfail H3) as (p' & Hrun & _ & Hcount & _).
  by exists p'.
Defined.

(** C5 as stated fails: 27 distinct adapters whose files are all there;
    the request raises, but only after weight loads were made. *)
Lemma no_load_before_capacity_failure_counterexample :
  let run := apply_loras all_present twenty_seven_loras None after_setup in
  NoDup twenty_seven_loras ∧ length twenty_seven_loras = 27%nat ∧
  run.1 = Raise IndexError ∧
  ¬ (count_calls is_load_lora_weights (new_calls after_setup run.2)
     = 0%nat).
Proof.
  split; [| split; [| split]].
  - compute_done.
  - reflexivity.
  - vm_compute. reflexivity.
  - vm_compute. discriminate.
Qed.

(** C10. A request that starts a reload with more than one scale but
    fewer scales than adapters: the scales go to [load_loras] as they
    were given, neither defaulted nor repeated; any [set_adapters] call
    the request makes gets that list, shorter than its list of adapter
    names; and the call is made once all the weight files are there and
    the adapters fit the 26 names. *)
Theorem fewer_scales_than_adapters_passed_short
    (path_exists : string → bool) (hf_loras : list string)
    (given : list Py.float) (p : Predictor) :
  last_loaded_loras p ≠ NameList hf_loras →
  (1 < length given < length hf_loras)%nat →
  scales_for hf_loras (Some given) = given ∧
  (∀ r p' ns ws,
     apply_loras path_exists hf_loras (Some given) p = (r, p') →
     SetAdapters ns ws ∈ new_calls p p' →
     ws = given ∧ ns = take (length hf_loras) names ∧
     (length ws < length ns)%nat) ∧
  (Forall (present path_exists) hf_loras →
   (length hf_loras ≤ 26)%nat →
   ∃ p',
     apply_loras path_exists hf_loras (Some given) p
     = (Ok (Some 1%float), p') ∧
     LoadLoras hf_loras given ∈ new_calls p p' ∧
     last (calls p')
     = Some (SetAdapters (take (length hf_loras) names) given) ∧
     active p' = Some (take (length hf_loras) names, given)).
Proof.
  intros Ht [Hg1 Hg2].
  assert (Hne : hf_loras ≠ []) by (intros ->; simpl in Hg2; lia).
  assert (Hsc : scales_for hf_loras (Some given) = given).
  { unfold scales_for. destruct given as [| s0 rest]; [simpl in Hg1; lia |].
    rewrite bool_decide_eq_false_2 by (simpl in *; lia). done. }
  assert (Htake : take (length hf_loras) given = given)
    by (apply take_ge; lia).
  assert (Hloads : ∀ ns ws new,
            Forall (λ c, is_load_lora_weights c = true) new →
            SetAdapters ns ws ∉ new).
  { intros ns ws new Hall Hin.
    apply (proj1 (Forall_forall _ _) Hall) in Hin. discriminate. }
  split; [exact Hsc |]. split.
  - intros r p' ns ws Hrun Hin. destruct r as [j | e].
    + apply apply_loras_inv_ok in Hrun as (_ & Hlen & _ & ->); [| done..].
      rewrite new_calls_reloaded, Hsc, Htake in Hin.
      apply elem_of_app in Hin as [Hin | Hin].
      { apply elem_of_cons in Hin as [Hin | Hin]; [discriminate |].
        apply list_elem_of_singleton in Hin. discriminate. }
      apply elem_of_app in Hin as [Hin | Hin].
      { by apply Hloads in Hin; [| apply loads_of_all_loads]. }
      apply list_elem_of_singleton in Hin. injection Hin as -> ->.
      split; [done |]. split; [done |].
      rewrite length_take, names_length. lia.
    + apply apply_loras_raise in Hrun as (_ & new & Hcalls & Hnew).
      rewrite (new_calls_app _ _ _ Hcalls) in Hin.
      apply elem_of_cons in Hin as [Hin | Hin]; [discriminate |].
      apply elem_of_cons in Hin as [Hin | Hin]; [discriminate |].
      by apply Hloads in Hin.
  - intros Hex Hlen. eexists. split; [by apply apply_loras_reload |].
    rewrite new_calls_reloaded, Hsc, Htake.
    split; [set_solver |]. unfold reloaded. cbn [calls active].
    rewrite Htake. split; [| done].
    rewrite !app_assoc. apply last_snoc.
Qed.

Lemma fewer_scales_than_adapters_passed_short_witness :
  let hf := ["one.safetensors"; "two.safetensors"; "three.safetensors"]%string in
  let given := [0.5%float; 0.9%float] in
  last_loaded_loras after_setup ≠ NameList hf ∧
  (1 < length given < length hf)%nat ∧
  ∃ p', apply_loras all_present hf (Some given) after_setup
        = (Ok (Some 1%float), p') ∧
        active p' = Some (["a"; "b"; "c"]%string, given).
Proof.
  intros hf given.
  assert (H1 : last_loaded_loras after_setup ≠ NameList hf) by done.
  assert (H2 : (1 < length given < length hf)%nat) by (simpl; lia).
  split; [exact H1 |]. split; [exact H2 |].
  destruct (fewer_scales_than_adapters_passed_short all_present hf given
              after_setup H1 H2) as (_ & _ & Hcall).
  destruct (Hcall ltac:(by apply Forall_forall) ltac:(simpl; lia))
    as (p' & Hrun & _ & _ & Hact).
  by exists p'.
Defined.

End adapter_claims.

(** ** Safety filtering and persistence *)

Section output_facts.

Import Outputs.

Context {Image : Type}.

Ltac run := unfold mbind, mret, Eff_bind, Eff_ret, modify, raise, save; simpl.

Lemma upscale_each_total (fmt : string) (q tw th : Z)
    (output_paths upscaled_paths : list string) (files : list saved) :
  upscale_each fmt q tw th output_paths upscaled_paths files
  = (Ok (upscaled_paths ++ (upscaled_path_of <$> output_paths)),
     files
     ++ ((λ path, mkSaved (upscaled_path_of path) (quality_for fmt q)
                    (Some (tw, th))) <$> output_paths)).
Proof.
  revert upscaled_paths files.
  induction output_paths as [| path rest IH]; intros upscaled_paths files.
  - simpl. by rewrite !app_nil_r.
  - simpl. run. rewrite IH. simpl. by rewrite <- !app_assoc.
Qed.

(** With the checker on and every verdict from index [i] on an unsafe
    one, the loop saves nothing and collects nothing. *)
Lemma save_safe_all_flagged (has_nsfw : list bool) (fmt : string) (q : Z)
    (images : list Image) (i : nat) (output_paths : list string)
    (files : list saved) :
  (∀ k, (k < length images)%nat → has_nsfw !! (i + k)%nat = Some true) →
  save_safe false has_nsfw fmt q i images output_paths files
  = (Ok output_paths, files).
Proof.
  revert i. induction images as [| img rest IH]; intros i Hall; [done |].
  simpl. pose proof (Hall 0%nat ltac:(simpl; lia)) as H0.
  rewrite Nat.add_0_r in H0. rewrite H0. run.
  apply IH. intros k Hk.
  replace (S i + k)%nat with (i + S k)%nat by lia.
  apply Hall. simpl. lia.
Qed.

Lemma finish_ok_nonempty (disable : bool) (has_nsfw : list bool)
    (fmt : string) (q tw th : Z) (images : list Image)
    (files files' : list saved) (paths : list string) :
  finish disable has_nsfw fmt q tw th images files = (Ok paths, files') →
  paths ≠ [].
Proof.
  unfold finish. run.
  destruct (save_safe _ _ _ _ _ _ _ _) as [[out | e] files1];
    [| discriminate].
  destruct out as [| path out]; [simpl; discriminate |].
  rewrite bool_decide_eq_false_2 by done.
  rewrite upscale_each_total. simpl. by intros [= <- _].
Qed.

End output_facts.

(** C6. With the safety checker on and every image of the batch judged
    unsafe, the request raises the NSFW exception and no file is written;
    and no run of the last stage returns an empty list of paths. *)
Theorem all_unsafe_batch_is_rejected {Image : Type} :
  (∀ (has_nsfw_content : list bool) (output_format : string)
     (output_quality target_width target_height : Z)
     (images : list Image) (files : list Outputs.saved),
     length has_nsfw_content = length images →
     Forall (λ verdict, verdict = true) has_nsfw_content →
     Outputs.finish false has_nsfw_content output_format output_quality
       target_width target_height images files
     = (Raise (Exception
          "NSFW content detected. Try running it again, or try a different prompt."),
        files)) ∧
  (∀ (disable_safety_checker : bool) (has_nsfw_content : list bool)
     (output_format : string)
     (output_quality target_width target_height : Z)
     (images : list Image) (files files' : list Outputs.saved)
     (paths : list string),
     Outputs.finish disable_safety_checker has_nsfw_content output_format
       output_quality target_width target_height images files
     = (Ok paths, files') →
     paths ≠ []).
Proof.
  split.
  - intros has_nsfw fmt q tw th images files Hlen Hall.
    unfold Outputs.finish. unfold mbind, Eff_bind.
    rewrite save_safe_all_flagged; [reflexivity |].
    intros k Hk. simpl.
    destruct (lookup_lt_is_Some_2 has_nsfw k ltac:(lia)) as [b Hb].
    rewrite Hb. f_equal.
    exact (proj1 (Forall_lookup _ _) Hall k b Hb).
  - intros disable has_nsfw fmt q tw th images files files' paths.
    apply finish_ok_nonempty.
Qed.

Lemma all_unsafe_batch_is_rejected_witness :
  let verdicts := [true; true] in
  let images := [(); ()] in
  length verdicts = length images ∧
  Forall (λ verdict, verdict = true) verdicts ∧
  Outputs.finish false verdicts "webp" 80 2048 2048 images []
  = (Raise (Exception
       "NSFW content detected. Try running it again, or try a different prompt."),
     []).
Proof.
  intros verdicts images.
  assert (H1 : length verdicts = length images) by reflexivity.
  assert (H2 : Forall (λ verdict, verdict = true) verdicts)
    by (by repeat constructor).
  split; [exact H1 |]. split; [exact H2 |].
  exact (proj1 (@all_unsafe_batch_is_rejected ()) verdicts "webp"%string
           80 2048 2048 images [] H1 H2).
Defined.

(** * Further properties of the code *)

(** ** Alignment and the token table *)

Section more_geometry.

Import SpecFloat FloatOps Geometry.

Lemma aligned_is_least (n : Z) :
  (16 | make_multiple_of_16 n) ∧ n ≤ make_multiple_of_16 n ∧
  ∀ k, (16 | k) → n ≤ k → make_multiple_of_16 n ≤ k.
Proof.
  destruct (make_multiple_of_16_spec n) as [Hd Hb].
  split; [exact Hd |]. split; [lia |].
  intros k [q ->] Hk. destruct Hd as [q' Hq']. rewrite Hq' in *. lia.
Qed.

(** X1. [make_multiple_of_16 n] is the least multiple of 16 that is not
    below [n], for negative [n] as well. *)
Theorem make_multiple_of_16_least (n : Z) :
  (16 | make_multiple_of_16 n) ∧ n ≤ make_multiple_of_16 n ∧
  ∀ k, (16 | k) → n ≤ k → make_multiple_of_16 n ≤ k.
Proof. exact (aligned_is_least n). Qed.

Lemma make_multiple_of_16_least_witness :
  (16 | 512) ∧ 500 ≤ 512 ∧ make_multiple_of_16 500 ≤ 512.
Proof.
  assert (H1 : (16 | 512)) by (by exists 32).
  assert (H2 : 500 ≤ 512) by lia.
  split; [exact H1 |]. split; [exact H2 |].
  exact (proj2 (proj2 (make_multiple_of_16_least 500)) 512 H1 H2).
Defined.

(** X2. Alignment leaves exactly the multiples of 16 alone, so aligning
    twice is aligning once, and it keeps the order of extents. *)
Theorem make_multiple_of_16_fixed_monotone (n m : Z) :
  (make_multiple_of_16 n = n ↔ (16 | n)) ∧
  make_multiple_of_16 (make_multiple_of_16 n) = make_multiple_of_16 n ∧
  (n ≤ m → make_multiple_of_16 n ≤ make_multiple_of_16 m).
Proof.
  assert (Hfix : ∀ a, (16 | a) → make_multiple_of_16 a = a).
  { intros a Ha.
    destruct (aligned_is_least a) as (_ & Hle & Hleast).
    specialize (Hleast a Ha ltac:(lia)). lia. }
  split; [| split].
  - split; [| apply Hfix].
    intros <-. apply make_multiple_of_16_spec.
  - apply Hfix, make_multiple_of_16_spec.
  - intros Hnm.
    destruct (aligned_is_least m) as (Hd & Hle & _).
    apply aligned_is_least; [exact Hd | lia].
Qed.

Lemma make_multiple_of_16_fixed_monotone_witness :
  500 ≤ 800 ∧ make_multiple_of_16 500 ≤ make_multiple_of_16 800.
Proof.
  assert (H : 500 ≤ 800) by lia. split; [exact H |].
  exact (proj2 (proj2 (make_multiple_of_16_fixed_monotone 500 800)) H).
Defined.

Lemma token_lookup_cases (aspect_ratio : string) :
  (aspect_ratio ∈ ASPECT_RATIOS_items.*1 →
   ∃ wh, aspect_ratio_to_width_height aspect_ratio = Ok wh ∧
         (aspect_ratio, wh) ∈ ASPECT_RATIOS_items) ∧
  (aspect_ratio ∉ ASPECT_RATIOS_items.*1 →
   aspect_ratio_to_width_height aspect_ratio
   = Raise (KeyError aspect_ratio)).
Proof.
  unfold aspect_ratio_to_width_height. split.
  - intros Hin. apply list_elem_of_fmap in Hin as ([tok wh] & -> & Hin).
    exists wh. simpl. split; [| done].
    apply ASPECT_RATIOS_lookup in Hin. by rewrite Hin.
  - intros Hnot.
    destruct (ASPECT_RATIOS !! aspect_ratio) as [wh |] eqn:Hl; [| done].
    apply ASPECT_RATIOS_lookup in Hl. destruct Hnot.
    apply list_elem_of_fmap. by exists (aspect_ratio, wh).
Qed.

(** X3. The lookup of an aspect-ratio token returns exactly when the
    token is one of the 11 keys of the table; any other token raises
    [KeyError] with that token. *)
Theorem unknown_token_raises_KeyError (aspect_ratio : string) :
  (aspect_ratio ∈ ASPECT_RATIOS_items.*1 →
   ∃ wh, aspect_ratio_to_width_height aspect_ratio = Ok wh ∧
         (aspect_ratio, wh) ∈ ASPECT_RATIOS_items) ∧
  (aspect_ratio ∉ ASPECT_RATIOS_items.*1 →
   aspect_ratio_to_width_height aspect_ratio
   = Raise (KeyError aspect_ratio)).
Proof. exact (token_lookup_cases aspect_ratio). Qed.

Lemma unknown_token_raises_KeyError_witness :
  ("2:1"%string ∉ ASPECT_RATIOS_items.*1) ∧
  aspect_ratio_to_width_height "2:1" = Raise (KeyError "2:1").
Proof.
  assert (H : "2:1"%string ∉ ASPECT_RATIOS_items.*1) by compute_done.
  split; [exact H |].
  exact (proj2 (unknown_token_raises_KeyError "2:1") H).
Defined.

(** A quotient [1440 * e / m] above one stays positive when it is cut
    by one only where the division is exact. *)
Lemma scaled_extent_positive (e m e1 : Z) :
  0 < e → 0 < m → m < 1440 * e →
  1440 * e / m - 1 ≤ e1 →
  ((1440 * e) mod m ≠ 0 → e1 = 1440 * e / m) →
  0 < e1.
Proof.
  intros He Hm Hlt Hlow Hexact.
  pose proof (Z.div_mod (1440 * e) m ltac:(lia)) as Hdiv.
  pose proof (Z.mod_pos_bound (1440 * e) m Hm) as Hmod.
  set (f := 1440 * e / m) in *. set (r := (1440 * e) mod m) in *.
  destruct (decide (r = 0)) as [Hr | Hr].
  - assert (2 ≤ f) by nia. lia.
  - rewrite (Hexact Hr). nia.
Qed.

(** The extents an image is resized to are positive as long as its
    longer edge is less than 1440 times the shorter one. *)
Lemma image_width_height_positive (w h : Z) :
  0 < w < 2 ^ 32 → 0 < h < 2 ^ 32 →
  Z.max w h < 1440 * Z.min w h →
  ∃ w' h', image_width_height w h = Ok (w', h') ∧
           0 < w' ∧ 0 < h' ∧ (16 | w') ∧ (16 | h').
Proof.
  intros Hw Hh Hratio.
  destruct (scaled_size_cases w h Hw Hh) as (w1 & h1 & Hsz & Hsmall & Hbig).
  unfold image_width_height. rewrite Hsz. cbn.
  destruct (make_multiple_of_16_spec w1) as [Hdw Hbw].
  destruct (make_multiple_of_16_spec h1) as [Hdh Hbh].
  do 2 eexists. split; [reflexivity |].
  unfold make_multiple_of_16 in *.
  assert (Hpos : 0 < w1 ∧ 0 < h1); [| split; [lia |]; split; [lia | done]].
  destruct (Z.le_gt_cases (Z.max w h) 1440) as [Hle | Hgt].
  - destruct (Hsmall Hle) as [-> ->]. lia.
  - destruct (Hbig Hgt) as (Hw1 & Hh1 & Hew & Heh).
    split;
      [apply (scaled_extent_positive w (Z.max w h))
      | apply (scaled_extent_positive h (Z.max w h))]; lia || done.
Qed.

(** An image whose longer edge is more than 1440 times the shorter
    one is resized to an extent of zero. *)
Lemma image_width_height_thin (w h : Z) :
  0 < w < 2 ^ 32 → 0 < h < 2 ^ 32 →
  1440 * Z.min w h < Z.max w h →
  ∃ w' h', image_width_height w h = Ok (w', h') ∧ (w' = 0 ∨ h' = 0).
Proof.
  intros Hw Hh Hratio.
  destruct (scaled_size_cases w h Hw Hh) as (w1 & h1 & Hsz & _ & Hbig).
  unfold image_width_height. rewrite Hsz. cbn.
  do 2 eexists. split; [reflexivity |].
  destruct (Hbig ltac:(lia)) as (_ & _ & Hew & Heh).
  assert (Hzero : ∀ e, 0 < e → 1440 * e < Z.max w h →
            (1440 * e) mod Z.max w h ≠ 0 ∧ 1440 * e / Z.max w h = 0).
  { intros e He Hlt. rewrite Z.mod_small, Z.div_small by lia. lia. }
  destruct (Z.min_spec w h) as [[_ Heq] | [_ Heq]]; rewrite Heq in Hratio.
  - left. destruct (Hzero w ltac:(lia) Hratio) as [Hr Hq].
    rewrite (Hew Hr), Hq. reflexivity.
  - right. destruct (Hzero h ltac:(lia) Hratio) as [Hr Hq].
    rewrite (Heh Hr), Hq. reflexivity.
Qed.

Lemma known_token_resolves
    (aspect_ratio : string) (image : option (Z * Z))
    (prompt_strength : Py.float) :
  aspect_ratio ∈ ASPECT_RATIOS_items.*1 →
  (∀ w h, image = Some (w, h) →
          0 < w < 2 ^ 32 ∧ 0 < h < 2 ^ 32 ∧
          Z.max w h < 1440 * Z.min w h) →
  ∃ kw,
    resolve_flux_kwargs aspect_ratio image prompt_strength = Ok kw ∧
    (aspect_ratio, (kw_width kw, kw_height kw)) ∈ ASPECT_RATIOS_items ∧
    match image with
    | None => kw_image kw = None ∧ kw_strength kw = None
    | Some _ =>
        kw_strength kw = Some prompt_strength ∧
        ∃ h' w', kw_image kw = Some (h', w') ∧
                 0 < h' ∧ 0 < w' ∧ (16 | h') ∧ (16 | w')
    end.
Proof.
  intros Htok Himg.
  destruct (proj1 (token_lookup_cases aspect_ratio) Htok)
    as ([tw th] & Hlook & Hin).
  unfold resolve_flux_kwargs. rewrite Hlook. simpl.
  destruct image as [[w h] |]; simpl.
  - destruct (Himg w h eq_refl) as (Hw & Hh & Hratio).
    destruct (image_width_height_positive w h Hw Hh Hratio)
      as (w' & h' & -> & Hw' & Hh' & Hdw & Hdh).
    simpl. unfold interpolate. simpl.
    rewrite decide_True by done. simpl.
    eexists. split; [reflexivity |]. simpl. split; [done |].
    split; [done |]. by exists h', w'.
  - eexists. split; [reflexivity |]. by simpl.
Qed.

(** X4. With a known token the arguments are always assembled, for no
    image and for any image of positive extents below [2^32] whose
    longer edge is less than 1440 times the shorter one.  Without an
    image they carry the token's pair and neither [image] nor
    [strength]; with one they carry [prompt_strength] and a seed tensor
    whose extents are both positive multiples of 16. *)
Theorem known_token_always_resolves
    (aspect_ratio : string) (image : option (Z * Z))
    (prompt_strength : Py.float) :
  aspect_ratio ∈ ASPECT_RATIOS_items.*1 →
  (∀ w h, image = Some (w, h) →
          0 < w < 2 ^ 32 ∧ 0 < h < 2 ^ 32 ∧
          Z.max w h < 1440 * Z.min w h) →
  ∃ kw,
    resolve_flux_kwargs aspect_ratio image prompt_strength = Ok kw ∧
    (aspect_ratio, (kw_width kw, kw_height kw)) ∈ ASPECT_RATIOS_items ∧
    match image with
    | None => kw_image kw = None ∧ kw_strength kw = None
    | Some _ =>
        kw_strength kw = Some prompt_strength ∧
        ∃ h' w', kw_image kw = Some (h', w') ∧
                 0 < h' ∧ 0 < w' ∧ (16 | h') ∧ (16 | w')
    end.
Proof. apply known_token_resolves. Qed.

Lemma known_token_always_resolves_witness :
  "16:9"%string ∈ ASPECT_RATIOS_items.*1 ∧
  (∀ w h, Some (3000, 2000) = Some (w, h) →
          0 < w < 2 ^ 32 ∧ 0 < h < 2 ^ 32 ∧
          Z.max w h < 1440 * Z.min w h) ∧
  ∃ kw, resolve_flux_kwargs "16:9" (Some (3000, 2000)) 0.5%float = Ok kw.
Proof.
  assert (H1 : "16:9"%string ∈ ASPECT_RATIOS_items.*1) by compute_done.
  assert (H2 : ∀ w h : Z, Some (3000, 2000) = Some (w, h) →
                 0 < w < 2 ^ 32 ∧ 0 < h < 2 ^ 32 ∧
                 Z.max w h < 1440 * Z.min w h)
    by (intros w h [= <- <-]; done).
  split; [exact H1 |]. split; [exact H2 |].
  destruct (known_token_always_resolves "16:9" (Some (3000, 2000))
              0.5%float H1 H2) as (kw & Hkw & _).
  by exists kw.
Defined.

(** None of the exceptions of geometry resolution is a plain
    [Exception]. *)
Lemma bind_no_Exception {A B : Type} (m : result A) (f : A → result B)
    (msg : string) :
  m ≠ Raise (Exception msg) →
  (∀ a, f a ≠ Raise (Exception msg)) →
  (m ≫= f) ≠ Raise (Exception msg).
Proof.
  intros Hm Hf. destruct m as [a | e]; cbn.
  - apply Hf.
  - intros [= ->]. by apply Hm.
Qed.

Lemma checked_no_Exception (x : spec_float) (msg : string) :
  Py.checked x ≠ Raise (Exception msg).
Proof. by destruct x. Qed.

Lemma truediv_no_Exception (a b : Z) (msg : string) :
  Py.truediv a b ≠ Raise (Exception msg).
Proof.
  unfold Py.truediv. destruct (decide (b = 0)); [done |].
  apply checked_no_Exception.
Qed.

Lemma mul_int_float_no_Exception (n : Z) (scale : Py.float)
    (msg : string) :
  Py.mul_int_float n scale ≠ Raise (Exception msg).
Proof.
  unfold Py.mul_int_float. apply bind_no_Exception; [| done].
  apply checked_no_Exception.
Qed.

Lemma int_of_float_no_Exception (x : Py.float) (msg : string) :
  Py.int_of_float x ≠ Raise (Exception msg).
Proof. unfold Py.int_of_float. by destruct (Prim2SF x). Qed.

Lemma image_width_height_no_Exception (w h : Z) (msg : string) :
  image_width_height w h ≠ Raise (Exception msg).
Proof.
  unfold image_width_height. apply bind_no_Exception; [| by intros []].
  unfold scaled_size. apply bind_no_Exception.
  { unfold image_scale. apply bind_no_Exception;
      [apply truediv_no_Exception |].
    intros sw. apply bind_no_Exception; [apply truediv_no_Exception | done]. }
  intros scale. destruct (PrimFloat.ltb scale Py.one); [| done].
  apply bind_no_Exception; [apply mul_int_float_no_Exception |]. intros x.
  apply bind_no_Exception; [apply int_of_float_no_Exception |]. intros w'.
  apply bind_no_Exception; [apply mul_int_float_no_Exception |]. intros y.
  apply bind_no_Exception; [apply int_of_float_no_Exception | done].
Qed.

Lemma resolution_never_raises_Exception
    (aspect_ratio : string) (image : option (Z * Z))
    (prompt_strength : Py.float) (msg : string) :
  resolve_flux_kwargs aspect_ratio image prompt_strength
  ≠ Raise (Exception msg).
Proof.
  unfold resolve_flux_kwargs. apply bind_no_Exception.
  { unfold aspect_ratio_to_width_height.
    by destruct (ASPECT_RATIOS !! aspect_ratio). }
  intros [tw th]. destruct image as [[w h] |]; [| done].
  apply bind_no_Exception; [apply image_width_height_no_Exception |].
  intros [w' h']. apply bind_no_Exception; [| done].
  unfold interpolate. by destruct (decide _).
Qed.

Lemma resolution_raise_cases
    (aspect_ratio : string) (image : option (Z * Z))
    (prompt_strength : Py.float) (e : exn) :
  (∀ w h, image = Some (w, h) → 0 < w < 2 ^ 32 ∧ 0 < h < 2 ^ 32) →
  (resolve_flux_kwargs aspect_ratio image prompt_strength = Raise e →
   ((aspect_ratio ∉ ASPECT_RATIOS_items.*1) ∧ e = KeyError aspect_ratio) ∨
   (aspect_ratio ∈ ASPECT_RATIOS_items.*1 ∧ e = RuntimeError ∧
    ∃ w h, image = Some (w, h) ∧ 1440 * Z.min w h ≤ Z.max w h)) ∧
  (aspect_ratio ∈ ASPECT_RATIOS_items.*1 →
   ∀ w h, image = Some (w, h) → 1440 * Z.min w h < Z.max w h →
          resolve_flux_kwargs aspect_ratio image prompt_strength
          = Raise RuntimeError).
Proof.
  intros Himg. split.
  - unfold resolve_flux_kwargs.
    destruct (decide (aspect_ratio ∈ ASPECT_RATIOS_items.*1))
      as [Htok | Htok].
    2:{ rewrite (proj2 (token_lookup_cases aspect_ratio) Htok).
        simpl. intros [= <-]. by left. }
    destruct (proj1 (token_lookup_cases aspect_ratio) Htok)
      as ([tw th] & -> & _).
    simpl. intros Hrun. right. split; [done |].
    destruct image as [[w h] |]; [| discriminate].
    destruct (Himg w h eq_refl) as [Hw Hh].
    destruct (Z.le_gt_cases (1440 * Z.min w h) (Z.max w h))
      as [Hthin | Hwide].
    + destruct (scaled_size_cases w h Hw Hh) as (w1 & h1 & Hsz & _).
      unfold image_width_height in Hrun. rewrite Hsz in Hrun.
      simpl in Hrun. unfold interpolate in Hrun.
      destruct (decide _); [discriminate |].
      injection Hrun as <-. split; [done |]. by exists w, h.
    + exfalso.
      destruct (image_width_height_positive w h Hw Hh Hwide)
        as (w' & h' & Hwh & Hw' & Hh' & _).
      rewrite Hwh in Hrun. simpl in Hrun. unfold interpolate in Hrun.
      simpl in Hrun. by rewrite decide_True in Hrun by done.
  - intros Htok w h -> Hthin.
    destruct (Himg w h eq_refl) as [Hw Hh].
    destruct (proj1 (token_lookup_cases aspect_ratio) Htok)
      as ([tw th] & Hlook & _).
    unfold resolve_flux_kwargs. rewrite Hlook. simpl.
    destruct (image_width_height_thin w h Hw Hh Hthin)
      as (w' & h' & -> & Hzero).
    simpl. unfold interpolate. simpl.
    rewrite decide_False; [done |]. lia.
Qed.

(** X5. For images of positive extents below [2^32], geometry
    resolution fails in two ways only, and the token is looked up
    first: an unknown token raises [KeyError] whatever the image, and
    with a known token the only failure is the [RuntimeError] of
    resizing the seed tensor to an extent of zero, which needs an image
    whose longer edge is at least 1440 times the shorter one and
    happens for every image whose longer edge is more than that. *)
Theorem resolution_failures
    (aspect_ratio : string) (image : option (Z * Z))
    (prompt_strength : Py.float) (e : exn) :
  (∀ w h, image = Some (w, h) → 0 < w < 2 ^ 32 ∧ 0 < h < 2 ^ 32) →
  (resolve_flux_kwargs aspect_ratio image prompt_strength = Raise e →
   ((aspect_ratio ∉ ASPECT_RATIOS_items.*1) ∧ e = KeyError aspect_ratio) ∨
   (aspect_ratio ∈ ASPECT_RATIOS_items.*1 ∧ e = RuntimeError ∧
    ∃ w h, image = Some (w, h) ∧ 1440 * Z.min w h ≤ Z.max w h)) ∧
  (aspect_ratio ∈ ASPECT_RATIOS_items.*1 →
   ∀ w h, image = Some (w, h) → 1440 * Z.min w h < Z.max w h →
          resolve_flux_kwargs aspect_ratio image prompt_strength
          = Raise RuntimeError).
Proof. apply resolution_raise_cases. Qed.

Lemma resolution_failures_witness :
  (∀ w h, Some (3000, 1) = Some (w, h) →
          0 < w < 2 ^ 32 ∧ 0 < h < 2 ^ 32) ∧
  "1:1"%string ∈ ASPECT_RATIOS_items.*1 ∧
  1440 * Z.min 3000 1 < Z.max 3000 1 ∧
  resolve_flux_kwargs "1:1" (Some (3000, 1)) 0.5%float = Raise RuntimeError.
Proof.
  assert (H1 : ∀ w h : Z, Some (3000, 1) = Some (w, h) →
                 0 < w < 2 ^ 32 ∧ 0 < h < 2 ^ 32)
    by (intros w h [= <- <-]; done).
  assert (H2 : "1:1"%string ∈ ASPECT_RATIOS_items.*1) by compute_done.
  assert (H3 : 1440 * Z.min 3000 1 < Z.max 3000 1) by done.
  split; [exact H1 |]. split; [exact H2 |]. split; [exact H3 |].
  exact (proj2 (resolution_failures "1:1" (Some (3000, 1)) 0.5%float
                  RuntimeError H1) H2 3000 1 eq_refl H3).
Defined.

End more_geometry.

(** ** Adapters: scales, failures and what stays attached *)

Section more_adapters.

Import Adapters.

Lemma attachments_of_names (l : list string) (ns : list string) :
  (zip_with (λ f n, (n, local_path_of f)) l ns).*1 = take (length l) ns ∧
  (zip_with (λ f n, (n, local_path_of f)) l ns).*2
  = local_path_of <$> take (length ns) l.
Proof.
  revert ns. induction l as [| f l IH]; intros [| n ns]; try done.
  destruct (IH ns) as [H1 H2].
  split; [exact (f_equal (cons n) H1) |].
  exact (f_equal (cons (local_path_of f)) H2).
Qed.

Lemma names_NoDup : NoDup names.
Proof. compute_done. Qed.

(** Whatever its outcome, the loop leaves the adapters of a prefix of
    its list loaded. *)
Lemma load_each_state (path_exists : string → bool) (l : list string)
    (count : nat) (p p' : Predictor) (r : result nat) :
  load_each path_exists l count p = (r, p') →
  (count ≤ 26)%nat →
  ∃ k, (k ≤ length l)%nat ∧ (count + k ≤ 26)%nat ∧
       p' = with_loads (take k l) count p.
Proof.
  revert count p. induction l as [| f l IH]; intros count p Hrun Hc.
  - injection Hrun as <- <-. exists 0%nat.
    rewrite with_loads_nil. split; [done |]. split; [lia | done].
  - simpl in Hrun.
    destruct (path_exists (local_path_of f)); simpl in Hrun.
    2:{ injection Hrun as <- <-. exists 0%nat. simpl.
        rewrite with_loads_nil. split; [lia |]. split; [lia | done]. }
    destruct (names !! count) as [a |] eqn:Ha.
    2:{ injection Hrun as <- <-. exists 0%nat. simpl.
        rewrite with_loads_nil. split; [lia |]. split; [lia | done]. }
    pose proof (lookup_lt_Some _ _ _ Ha) as Hlt.
    rewrite names_length in Hlt.
    revert Hrun. unfold mbind, Eff_bind, load_lora_weights, modify. simpl.
    intros Hrun. apply IH in Hrun as (k & Hk & Hck & ->); [| lia].
    exists (S k). simpl. split; [lia |]. split; [lia |].
    unfold with_loads. simpl.
    rewrite (loads_of_cons _ _ _ _ Ha), (attachments_of_cons _ _ _ _ Ha).
    by rewrite <- !app_assoc.
Qed.

(** A reload that goes through: every file is there and the adapters
    fit the 26 names. *)
Lemma reload_activates (path_exists : string → bool)
    (hf_loras : list string) (lora_scales : option (list Py.float))
    (p : Predictor) :
  hf_loras ≠ [] →
  last_loaded_loras p ≠ NameList hf_loras →
  Forall (present path_exists) hf_loras →
  (length hf_loras ≤ 26)%nat →
  ∃ p',
    apply_loras path_exists hf_loras lora_scales p
    = (Ok (Some 1%float), p') ∧
    attached p' = attachments_of hf_loras 0 ∧
    active p'
    = Some (take (length hf_loras) names,
            take (length hf_loras) (scales_for hf_loras lora_scales)) ∧
    length (take (length hf_loras) names) = length hf_loras.
Proof.
  intros Hne Ht Hex Hlen. eexists.
  split; [by apply apply_loras_reload |]. simpl.
  split; [done |]. split; [done |].
  rewrite length_take, names_length. lia.
Qed.

(** X6. When no scales are given, [None] or an empty list, a reload
    that goes through activates every adapter with the weight 0.8, one
    weight for each adapter name. *)
Theorem no_scales_default_to_0_8 (path_exists : string → bool)
    (hf_loras : list string) (lora_scales : option (list Py.float))
    (p : Predictor) :
  lora_scales = None ∨ lora_scales = Some [] →
  hf_loras ≠ [] →
  last_loaded_loras p ≠ NameList hf_loras →
  Forall (present path_exists) hf_loras →
  (length hf_loras ≤ 26)%nat →
  ∃ p' adapter_names,
    apply_loras path_exists hf_loras lora_scales p
    = (Ok (Some 1%float), p') ∧
    active p'
    = Some (adapter_names, replicate (length hf_loras) 0.8%float) ∧
    length adapter_names = length hf_loras.
Proof.
  intros Hsc Hne Ht Hex Hlen.
  destruct (reload_activates path_exists hf_loras lora_scales p Hne Ht Hex
              Hlen) as (p' & Hrun & _ & Hact & Hn).
  exists p', (take (length hf_loras) names).
  split; [exact Hrun |]. split; [| exact Hn].
  rewrite Hact. do 2 f_equal.
  assert (Hs : scales_for hf_loras lora_scales
               = replicate (length hf_loras) 0.8%float)
    by (by destruct Hsc as [-> | ->]).
  rewrite Hs. apply take_ge. by rewrite length_replicate.
Qed.

Lemma no_scales_default_to_0_8_witness :
  let hf := ["one.safetensors"; "two.safetensors"]%string in
  ((None : option (list Py.float)) = None ∨
   (None : option (list Py.float)) = Some []) ∧ hf ≠ [] ∧
  last_loaded_loras after_setup ≠ NameList hf ∧
  Forall (present all_present) hf ∧ (length hf ≤ 26)%nat ∧
  ∃ p' adapter_names,
    apply_loras all_present hf None after_setup = (Ok (Some 1%float), p') ∧
    active p' = Some (adapter_names, [0.8%float; 0.8%float]).
Proof.
  intros hf.
  assert (H0 : (None : option (list Py.float)) = None ∨
               (None : option (list Py.float)) = Some []) by (by left).
  assert (H1 : hf ≠ []) by done.
  assert (H2 : last_loaded_loras after_setup ≠ NameList hf) by done.
  assert (H3 : Forall (present all_present) hf) by (by apply Forall_forall).
  assert (H4 : (length hf ≤ 26)%nat) by (simpl; lia).
  do 5 (split; [assumption |]).
  destruct (no_scales_default_to_0_8 all_present hf None after_setup
              H0 H1 H2 H3 H4) as (p' & ns & Hrun & Hact & Hn).
  exists p', ns. split; [exact Hrun | exact Hact].
Defined.

(** X7. A single scale given for two or more adapters is repeated: a
    reload that goes through activates every adapter with that scale. *)
Theorem single_scale_is_broadcast (path_exists : string → bool)
    (hf_loras : list string) (scale : Py.float) (p : Predictor) :
  (1 < length hf_loras)%nat →
  last_loaded_loras p ≠ NameList hf_loras →
  Forall (present path_exists) hf_loras →
  (length hf_loras ≤ 26)%nat →
  ∃ p' adapter_names,
    apply_loras path_exists hf_loras (Some [scale]) p
    = (Ok (Some 1%float), p') ∧
    active p' = Some (adapter_names, replicate (length hf_loras) scale) ∧
    length adapter_names = length hf_loras.
Proof.
  intros Hn Ht Hex Hlen.
  assert (Hne : hf_loras ≠ []) by (intros ->; simpl in Hn; lia).
  destruct (reload_activates path_exists hf_loras (Some [scale]) p Hne Ht
              Hex Hlen) as (p' & Hrun & _ & Hact & Hnames).
  exists p', (take (length hf_loras) names).
  split; [exact Hrun |]. split; [| exact Hnames].
  rewrite Hact. do 2 f_equal.
  assert (Hs : scales_for hf_loras (Some [scale])
               = replicate (length hf_loras) scale).
  { unfold scales_for. by rewrite bool_decide_eq_true_2,
      bool_decide_eq_true_2 by (simpl; lia). }
  rewrite Hs. apply take_ge. by rewrite length_replicate.
Qed.

Lemma single_scale_is_broadcast_witness :
  let hf := ["one.safetensors"; "two.safetensors"]%string in
  (1 < length hf)%nat ∧
  last_loaded_loras after_setup ≠ NameList hf ∧
  Forall (present all_present) hf ∧ (length hf ≤ 26)%nat ∧
  ∃ p' adapter_names,
    apply_loras all_present hf (Some [0.5%float]) after_setup
    = (Ok (Some 1%float), p') ∧
    active p' = Some (adapter_names, [0.5%float; 0.5%float]).
Proof.
  intros hf.
  assert (H1 : (1 < length hf)%nat) by (simpl; lia).
  assert (H2 : last_loaded_loras after_setup ≠ NameList hf) by done.
  assert (H3 : Forall (present all_present) hf) by (by apply Forall_forall).
  assert (H4 : (length hf ≤ 26)%nat) by (simpl; lia).
  do 4 (split; [assumption |]).
  destruct (single_scale_is_broadcast all_present hf 0.5%float after_setup
              H1 H2 H3 H4) as (p' & ns & Hrun & Hact & _).
  exists p', ns. split; [exact Hrun | exact Hact].
Defined.

(** X8. When at least as many scales as adapters are given (and more
    than one, or one for one adapter), the adapters get the first scales
    in order and the surplus is dropped: names and weights have the same
    length. *)
Theorem surplus_scales_are_dropped (path_exists : string → bool)
    (hf_loras : list string) (given : list Py.float) (p : Predictor) :
  hf_loras ≠ [] →
  (length hf_loras ≤ length given)%nat →
  last_loaded_loras p ≠ NameList hf_loras →
  Forall (present path_exists) hf_loras →
  (length hf_loras ≤ 26)%nat →
  ∃ p' adapter_names,
    apply_loras path_exists hf_loras (Some given) p
    = (Ok (Some 1%float), p') ∧
    active p' = Some (adapter_names, take (length hf_loras) given) ∧
    length adapter_names = length (take (length hf_loras) given).
Proof.
  intros Hne Hg Ht Hex Hlen.
  destruct (reload_activates path_exists hf_loras (Some given) p Hne Ht
              Hex Hlen) as (p' & Hrun & _ & Hact & Hnames).
  exists p', (take (length hf_loras) names).
  split; [exact Hrun |].
  assert (Hs : scales_for hf_loras (Some given) = given).
  { unfold scales_for. destruct given as [| s0 rest].
    - destruct hf_loras; [done | simpl in Hg; lia].
    - destruct (decide (length (s0 :: rest) = 1%nat)) as [H1 | H1].
      + rewrite (bool_decide_eq_false_2 (1 < _)%nat) by lia.
        by rewrite andb_false_r.
      + by rewrite bool_decide_eq_false_2 by done. }
  rewrite Hs in Hact. split; [exact Hact |].
  rewrite Hnames, length_take. lia.
Qed.

Lemma surplus_scales_are_dropped_witness :
  let hf := ["one.safetensors"; "two.safetensors"]%string in
  let given := [0.5%float; 0.9%float; 0.1%float] in
  hf ≠ [] ∧ (length hf ≤ length given)%nat ∧
  last_loaded_loras after_setup ≠ NameList hf ∧
  Forall (present all_present) hf ∧ (length hf ≤ 26)%nat ∧
  ∃ p' adapter_names,
    apply_loras all_present hf (Some given) after_setup
    = (Ok (Some 1%float), p') ∧
    active p' = Some (adapter_names, [0.5%float; 0.9%float]).
Proof.
  intros hf given.
  assert (H0 : hf ≠ []) by done.
  assert (H1 : (length hf ≤ length given)%nat) by (simpl; lia).
  assert (H2 : last_loaded_loras after_setup ≠ NameList hf) by done.
  assert (H3 : Forall (present all_present) hf) by (by apply Forall_forall).
  assert (H4 : (length hf ≤ 26)%nat) by (simpl; lia).
  do 5 (split; [assumption |]).
  destruct (surplus_scales_are_dropped all_present hf given after_setup
              H0 H1 H2 H3 H4) as (p' & ns & Hrun & Hact & _).
  exists p', ns. split; [exact Hrun | exact Hact].
Defined.

(** X9. A request whose list differs from the tracked one and names a
    missing file with at most 26 files ahead of it, all of them there:
    the adapters attached before are unloaded, the files ahead of the
    missing one are loaded, and the request raises [FileNotFoundError]
    with the path of the first missing file.  Nothing is made active,
    and the tracked list is left as it was. *)
Theorem missing_file_raises_after_partial_load
    (path_exists : string → bool) (before : list string) (missing : string)
    (after : list string) (lora_scales : option (list Py.float))
    (p : Predictor) :
  let hf_loras := before ++ missing :: after in
  Forall (present path_exists) before →
  ¬ present path_exists missing →
  (length before ≤ 26)%nat →
  last_loaded_loras p ≠ NameList hf_loras →
  ∃ p',
    apply_loras path_exists hf_loras lora_scales p
    = (Raise (FileNotFoundError
                ("Could not find LoRA file at: "
                 +:+ local_path_of missing)), p') ∧
    new_calls p p'
    = [UnloadLoraWeights;
       LoadLoras hf_loras (scales_for hf_loras lora_scales)]
      ++ loads_of before 0 ∧
    attached p' = attachments_of before 0 ∧
    active p' = None ∧
    last_loaded_loras p' = last_loaded_loras p.
Proof.
  intros hf_loras Hex Hmiss Hlen Ht. subst hf_loras.
  assert (Hne : before ++ missing :: after ≠ []) by (by destruct before).
  eexists. split.
  - rewrite apply_loras_other by done. unfold load_loras.
    unfold mbind, Eff_bind, modify. simpl.
    rewrite (load_each_app path_exists) by (done || simpl; lia). simpl.
    unfold present in Hmiss. apply not_true_is_false in Hmiss.
    rewrite Hmiss. reflexivity.
  - simpl. split; [| done].
    apply new_calls_app. simpl. by rewrite <- !app_assoc.
Qed.

Lemma missing_file_raises_after_partial_load_witness :
  let fs := λ path : string,
    bool_decide (path = "loras/one.safetensors"%string) in
  let before : list string := ["one.safetensors"%string] in
  let missing : string := "two.safetensors"%string in
  Forall (present fs) before ∧
  ¬ present fs missing ∧
  (length before ≤ 26)%nat ∧
  last_loaded_loras after_setup ≠ NameList (before ++ missing :: []) ∧
  ∃ p',
    apply_loras fs (before ++ missing :: []) None after_setup
    = (Raise (FileNotFoundError
                "Could not find LoRA file at: loras/two.safetensors"), p') ∧
    attached p' = [("a", "loras/one.safetensors")]%string.
Proof.
  intros fs before missing.
  assert (H1 : Forall (present fs) before) by (by repeat constructor).
  assert (H2 : ¬ present fs missing) by done.
  assert (H3 : (length before ≤ 26)%nat) by (simpl; lia).
  assert (H4 : last_loaded_loras after_setup
               ≠ NameList (before ++ missing :: [])) by done.
  do 4 (split; [assumption |]).
  destruct (missing_file_raises_after_partial_load fs before missing []
              None after_setup H1 H2 H3 H4) as (p' & Hrun & _ & Hatt & _).
  exists p'. split; [exact Hrun | exact Hatt].
Defined.

(** The state a raising request leaves: the earlier adapters are gone,
    those of a prefix of its list are attached, none is active. *)
Lemma apply_loras_raise_state (path_exists : string → bool)
    (hf_loras : list string) (lora_scales : option (list Py.float))
    (p p' : Predictor) (e : exn) :
  apply_loras path_exists hf_loras lora_scales p = (Raise e, p') →
  ∃ k, (k ≤ length hf_loras)%nat ∧ (k ≤ 26)%nat ∧
       attached p' = attachments_of (take k hf_loras) 0 ∧
       active p' = None ∧
       last_loaded_loras p' = last_loaded_loras p.
Proof.
  intros Hrun.
  assert (Hne : hf_loras ≠ []) by (intros ->; discriminate).
  destruct (decide (last_loaded_loras p = NameList hf_loras)) as [Ht | Ht].
  { rewrite apply_loras_same in Hrun by done. discriminate. }
  rewrite apply_loras_other in Hrun by done.
  unfold load_loras in Hrun. revert Hrun.
  unfold mbind, Eff_bind, modify. simpl.
  destruct (load_each path_exists hf_loras 0 _) as [[n | e'] p1] eqn:Hl;
    [discriminate |].
  intros [= <- <-].
  apply load_each_state in Hl as (k & Hk & Hk26 & ->); [| lia].
  exists k. simpl. split; [exact Hk |]. split; [lia | done].
Qed.

Lemma reachable_attached (p : Predictor) :
  reachable p →
  ∃ l, (length l ≤ 26)%nat ∧ attached p = attachments_of l 0 ∧
       (active p = None ∨
        ∃ ws, active p = Some (take (length l) names, ws) ∧
              last_loaded_loras p = NameList l ∧
              (length ws ≤ length l)%nat).
Proof.
  induction 1 as [| path_exists hf sc p r p' Hreach IH Hrun].
  { exists []. split; [simpl; lia |]. split; [done | by left]. }
  destruct hf as [| f hf'].
  { rewrite apply_loras_empty in Hrun. injection Hrun as <- <-.
    exists []. split; [simpl; lia |]. split; [done | by left]. }
  destruct r as [j | e].
  - destruct (decide (last_loaded_loras p = NameList (f :: hf'))) as [Ht | Ht].
    + rewrite apply_loras_same in Hrun by done.
      injection Hrun as <- <-. exact IH.
    + apply apply_loras_inv_ok in Hrun as (_ & Hlen & _ & ->); [| done..].
      exists (f :: hf'). split; [exact Hlen |]. split; [done |].
      right. eexists. split; [reflexivity |]. split; [done |].
      rewrite length_take. lia.
  - apply apply_loras_raise_state in Hrun as (k & Hk & Hk26 & Hatt & Hact & _).
    exists (take k (f :: hf')).
    split; [rewrite length_take; lia |]. split; [exact Hatt | by left].
Qed.

(** X10. In every state the predictor goes through, the adapter names
    attached are the first letters of the alphabet in order, hence at
    most 26 and never repeated.  Whenever a set of adapters is active it
    names exactly the attached adapters, it has no more weights than
    names, and the attached files are those of the tracked list, in
    order. *)
Theorem attached_adapters_are_consistent (p : Predictor) :
  reachable p →
  (length (attached p) ≤ 26)%nat ∧
  (attached p).*1 = take (length (attached p)) names ∧
  NoDup (attached p).*1 ∧
  ∀ adapter_names adapter_weights,
    active p = Some (adapter_names, adapter_weights) →
    adapter_names = (attached p).*1 ∧
    (length adapter_weights ≤ length adapter_names)%nat ∧
    ∃ lora_names,
      last_loaded_loras p = NameList lora_names ∧
      (attached p).*2 = local_path_of <$> lora_names.
Proof.
  intros Hreach.
  destruct (reachable_attached p Hreach) as (l & Hlen & Hatt & Hact).
  destruct (attachments_of_names l names) as [H1 H2].
  unfold attachments_of in Hatt. rewrite drop_0 in Hatt.
  assert (Hn : length (attached p) = length l).
  { rewrite Hatt, length_zip_with, names_length. lia. }
  assert (Hfst : (attached p).*1 = take (length l) names)
    by (by rewrite Hatt).
  split; [lia |]. split; [by rewrite Hn |]. split.
  { rewrite Hfst.
    exact (sublist_NoDup _ _ names_NoDup (sublist_take _ _)). }
  intros ns ws Hsome.
  destruct Hact as [Hnone | (ws' & Hact & Ht & Hws)]; [congruence |].
  rewrite Hact in Hsome. injection Hsome as <- <-.
  split; [by rewrite Hfst |].
  split; [rewrite length_take, names_length; lia |].
  exists l. split; [exact Ht |].
  rewrite Hatt, H2.
  by rewrite take_ge by (rewrite names_length; lia).
Qed.

Lemma attached_adapters_are_consistent_witness :
  let p := (apply_loras all_present default_loras None after_setup).2 in
  reachable p ∧ (attached p).*1 = ["a"%string] ∧
  active p = Some (["a"%string], [0.8%float]).
Proof.
  intros p.
  assert (H : reachable p).
  { eapply (reachable_request all_present default_loras None after_setup);
      [constructor | reflexivity]. }
  split; [exact H |].
  destruct (attached_adapters_are_consistent p H) as (_ & Hnames & _ & _).
  split; [by rewrite Hnames | reflexivity].
Defined.



Lemma load_each_raise_cases (path_exists : string → bool)
    (l : list string) (count : nat) (p p' : Predictor) (e : exn) :
  load_each path_exists l count p = (Raise e, p') →
  (count ≤ 26)%nat →
  (∃ before missing after,
     l = before ++ missing :: after ∧
     Forall (present path_exists) before ∧
     ¬ present path_exists missing ∧
     (count + length before ≤ 26)%nat ∧
     e = FileNotFoundError
           ("Could not find LoRA file at: " +:+ local_path_of missing)) ∨
  (e = IndexError ∧ (26 < count + length l)%nat ∧
   Forall (present path_exists) (take (27 - count) l)).
Proof.
  revert count p. induction l as [| f l IH]; intros count p Hrun Hc.
  { discriminate. }
  simpl in Hrun.
  destruct (path_exists (local_path_of f)) eqn:Hf; simpl in Hrun.
  2:{ injection Hrun as <- _. left. exists [], f, l. simpl.
      split; [done |]. split; [apply Forall_nil_2 |].
      split; [unfold present; congruence |]. split; [lia | done]. }
  destruct (names !! count) as [a |] eqn:Ha.
  2:{ injection Hrun as <- _. right.
      apply lookup_ge_None_1 in Ha. rewrite names_length in Ha.
      replace count with 26%nat by lia. simpl.
      split; [done |]. split; [lia |]. by apply Forall_singleton. }
  pose proof (lookup_lt_Some _ _ _ Ha) as Hlt.
  rewrite names_length in Hlt.
  revert Hrun. unfold mbind, Eff_bind, load_lora_weights, modify. simpl.
  intros Hrun. apply IH in Hrun; [| lia].
  destruct Hrun as [(before & missing & after & -> & Hex & Hmiss & Hlen & ->)
                   | (-> & Hlen & Hex)].
  - left. exists (f :: before), missing, after. simpl.
    split; [done |]. split; [by constructor |].
    split; [done |]. split; [lia | done].
  - right. split; [done |]. simpl. split; [lia |].
    replace (27 - count)%nat with (S (27 - S count)) by lia.
    simpl. by constructor.
Qed.

Lemma apply_loras_raise_cases (path_exists : string → bool)
    (hf_loras : list string) (lora_scales : option (list Py.float))
    (p p' : Predictor) (e : exn) :
  apply_loras path_exists hf_loras lora_scales p = (Raise e, p') →
  (∃ before missing after,
     hf_loras = before ++ missing :: after ∧
     Forall (present path_exists) before ∧
     ¬ present path_exists missing ∧
     (length before ≤ 26)%nat ∧
     e = FileNotFoundError
           ("Could not find LoRA file at: " +:+ local_path_of missing)) ∨
  (e = IndexError ∧ (26 < length hf_loras)%nat ∧
   Forall (present path_exists) (take 27 hf_loras)).
Proof.
  intros Hrun.
  assert (Hne : hf_loras ≠ []) by (intros ->; discriminate).
  destruct (decide (last_loaded_loras p = NameList hf_loras)) as [Ht | Ht].
  { rewrite apply_loras_same in Hrun by done. discriminate. }
  rewrite apply_loras_other in Hrun by done.
  unfold load_loras in Hrun. revert Hrun.
  unfold mbind, Eff_bind, modify. simpl.
  destruct (load_each path_exists hf_loras 0 _) as [[n | e'] p1] eqn:Hl;
    [discriminate |].
  intros [= <- _].
  apply load_each_raise_cases in Hl; [| lia]. exact Hl.
Qed.



End more_adapters.

(** ** Which files a request writes *)

Section more_outputs.

Import Outputs Filtering.

Context {Image : Type}.

Ltac run := unfold mbind, mret, Eff_bind, Eff_ret, modify, raise, save; simpl.

Lemma survivors_cons (disable : bool) (verdicts : list bool) (i n : nat) :
  survivors disable verdicts i (S n)
  = if kept disable verdicts i
    then i :: survivors disable verdicts (S i) n
    else survivors disable verdicts (S i) n.
Proof. reflexivity. Qed.

Lemma survivors_disabled (verdicts : list bool) (i n : nat) :
  survivors true verdicts i n = seq i n.
Proof.
  revert i. induction n as [| n IH]; intros i; [done |].
  rewrite survivors_cons. simpl. by rewrite IH.
Qed.

Lemma survivors_in_range (disable : bool) (verdicts : list bool)
    (i n k : nat) :
  k ∈ survivors disable verdicts i n →
  (i ≤ k < i + n)%nat ∧ kept disable verdicts k = true.
Proof.
  unfold survivors. rewrite list_elem_of_In, filter_In, <- list_elem_of_In.
  rewrite elem_of_seq. tauto.
Qed.

Lemma survivors_NoDup (disable : bool) (verdicts : list bool) (i n : nat) :
  NoDup (survivors disable verdicts i n).
Proof.
  unfold survivors. apply NoDup_ListNoDup, List.NoDup_filter, seq_NoDup.
Qed.

Lemma survivors_length (disable : bool) (verdicts : list bool) (i n : nat) :
  (length (survivors disable verdicts i n) ≤ n)%nat.
Proof.
  unfold survivors. etrans; [apply List.filter_length_le |].
  by rewrite length_seq.
Qed.

(** The loop of lines 290-299 saves the images kept, under their batch
    index, and collects their paths. *)
Lemma save_safe_survivors (disable : bool) (verdicts : list bool)
    (fmt : string) (q : Z) (images : list Image) (i : nat)
    (out : list string) (files : list saved) :
  disable = true ∨ (i + length images ≤ length verdicts)%nat →
  save_safe disable verdicts fmt q i images out files
  = (Ok (out ++ ((λ k, output_path_of k fmt)
                 <$> survivors disable verdicts i (length images))),
     files ++ (candidate_file fmt q
               <$> survivors disable verdicts i (length images))).
Proof.
  revert i out files.
  induction images as [| img rest IH]; intros i out files Hv.
  { simpl. by rewrite !app_nil_r. }
  cbn [length]. rewrite survivors_cons.
  destruct disable.
  - simpl. run. rewrite IH by (by left). by rewrite <- !app_assoc.
  - destruct Hv as [Hv | Hv]; [discriminate |]. cbn [length] in Hv.
    destruct (lookup_lt_is_Some_2 verdicts i ltac:(lia)) as [b Hb].
    unfold kept. simpl. rewrite Hb. run.
    destruct b; simpl.
    + apply IH. right. lia.
    + rewrite IH by (right; lia). by rewrite <- !app_assoc.
Qed.

Lemma upscale_each_paths_for (fmt : string) (q tw th : Z) (ks : list nat)
    (files : list saved) :
  upscale_each fmt q tw th ((λ k, output_path_of k fmt) <$> ks) [] files
  = (Ok (paths_for fmt ks),
     files ++ (upscaled_file fmt q tw th <$> ks)).
Proof.
  rewrite upscale_each_total. unfold paths_for.
  rewrite <- !list_fmap_compose. reflexivity.
Qed.

Lemma finish_survivors (disable_safety_checker : bool)
    (has_nsfw_content : list bool) (output_format : string)
    (output_quality target_width target_height : Z)
    (images : list Image) (files : list saved) :
  disable_safety_checker = true
  ∨ (length images ≤ length has_nsfw_content)%nat →
  let ks :=
    survivors disable_safety_checker has_nsfw_content 0 (length images) in
  finish disable_safety_checker has_nsfw_content output_format
    output_quality target_width target_height images files
  = if bool_decide (ks = []) then
      (Raise (Exception
         "NSFW content detected. Try running it again, or try a different prompt."),
       files)
    else
      (Ok (paths_for output_format ks),
       files ++ files_for output_format output_quality target_width
                  target_height ks).
Proof.
  intros Hv ks. unfold finish, mbind, Eff_bind.
  rewrite save_safe_survivors by (destruct Hv; [by left | right; lia]).
  fold ks. simpl. rewrite length_fmap.
  destruct ks as [| k ks'] eqn:Hks.
  { simpl. by rewrite app_nil_r. }
  rewrite !bool_decide_eq_false_2 by done.
  rewrite upscale_each_paths_for. unfold files_for.
  by rewrite <- app_assoc.
Qed.

(** X13. When the checker is off, or has given a verdict for every
    image, the last stage is decided by the images kept: with none it
    raises the NSFW exception and writes nothing; otherwise it writes
    the kept candidates, then their upscaled copies, each under the
    index its image had in the batch, and returns the upscaled paths in
    batch order. *)
Theorem finish_keeps_the_survivors (disable_safety_checker : bool)
    (has_nsfw_content : list bool) (output_format : string)
    (output_quality target_width target_height : Z)
    (images : list Image) (files : list saved) :
  disable_safety_checker = true
  ∨ (length images ≤ length has_nsfw_content)%nat →
  let ks :=
    survivors disable_safety_checker has_nsfw_content 0 (length images) in
  finish disable_safety_checker has_nsfw_content output_format
    output_quality target_width target_height images files
  = if bool_decide (ks = []) then
      (Raise (Exception
         "NSFW content detected. Try running it again, or try a different prompt."),
       files)
    else
      (Ok (paths_for output_format ks),
       files ++ files_for output_format output_quality target_width
                  target_height ks).
Proof. apply finish_survivors. Qed.

(** X14. With the safety checker disabled the verdicts are never
    read: every image of a batch that is not empty is saved and
    upscaled, whatever list of verdicts is at hand. *)
Theorem disabled_checker_keeps_every_image (has_nsfw_content : list bool)
    (output_format : string)
    (output_quality target_width target_height : Z)
    (images : list Image) (files : list saved) :
  images ≠ [] →
  finish true has_nsfw_content output_format output_quality target_width
    target_height images files
  = (Ok (paths_for output_format (seq 0 (length images))),
     files ++ files_for output_format output_quality target_width
                target_height (seq 0 (length images))).
Proof.
  intros Hne.
  rewrite finish_survivors by (by left).
  rewrite survivors_disabled.
  destruct images as [| img rest]; [done |].
  by rewrite bool_decide_eq_false_2 by done.
Qed.

End more_outputs.

Lemma finish_keeps_the_survivors_witness :
  let verdicts := [true; false; false] in
  let images := [(); (); ()] in
  (length images ≤ length verdicts)%nat ∧
  Outputs.finish false verdicts "png" 80 2048 2048 images []
  = (Ok ["/tmp/out-1-upscaled.png"; "/tmp/out-2-upscaled.png"]%string,
     [ Outputs.mkSaved "/tmp/out-1.png" None None;
       Outputs.mkSaved "/tmp/out-2.png" None None;
       Outputs.mkSaved "/tmp/out-1-upscaled.png" None (Some (2048, 2048));
       Outputs.mkSaved "/tmp/out-2-upscaled.png" None (Some (2048, 2048)) ]).
Proof.
  intros verdicts images.
  assert (H : (length images ≤ length verdicts)%nat) by (simpl; lia).
  split; [exact H |].
  rewrite (finish_keeps_the_survivors false verdicts "png" 80 2048 2048
             images [] (or_intror H)).
  reflexivity.
Defined.

Lemma disabled_checker_keeps_every_image_witness :
  let images := [(); ()] in
  images ≠ [] ∧
  Outputs.finish true [true; true] "jpg" 90 1024 768 images []
  = (Ok ["/tmp/out-0-upscaled.jpg"; "/tmp/out-1-upscaled.jpg"]%string,
     [ Outputs.mkSaved "/tmp/out-0.jpg" (Some 90) None;
       Outputs.mkSaved "/tmp/out-1.jpg" (Some 90) None;
       Outputs.mkSaved "/tmp/out-0-upscaled.jpg" (Some 90)
         (Some (1024, 768));
       Outputs.mkSaved "/tmp/out-1-upscaled.jpg" (Some 90)
         (Some (1024, 768)) ]).
Proof.
  intros images.
  assert (H : images ≠ []) by done.
  split; [exact H |].
  rewrite (disabled_checker_keeps_every_image [true; true] "jpg" 90 1024 768
             images [] H).
  reflexivity.
Defined.

(** ** The paths of the files *)

Section more_paths.

Import Outputs Filtering.

Lemma string_app_assoc (a b c : string) :
  (a +:+ b) +:+ c = a +:+ (b +:+ c).
Proof.
  induction a as [| x a IH]; [done |]. exact (f_equal (String x) IH).
Qed.

Lemma replace_dots_app (by_ a b : string) :
  replace_dots by_ (a +:+ b) = replace_dots by_ a +:+ replace_dots by_ b.
Proof.
  induction a as [| x a IH]; [done |].
  change (String x a +:+ b) with (String x (a +:+ b)). simpl.
  destruct (Ascii.eqb x "."%char); rewrite IH; [| done].
  by rewrite string_app_assoc.
Qed.

Lemma replace_dots_dot_free (by_ s : string) :
  dot_free s = true → replace_dots by_ s = s.
Proof.
  induction s as [| x s IH]; [done |]. simpl.
  destruct (Ascii.eqb x "."%char); simpl; [discriminate |].
  intros H. by rewrite IH.
Qed.

Lemma is_digit_not_dot (c : ascii) :
  is_digit c = true → Ascii.eqb c "."%char = false.
Proof. by destruct c as [[] [] [] [] [] [] [] []]. Qed.

Lemma all_digits_dot_free (s : string) :
  all_digits s = true → dot_free s = true.
Proof.
  induction s as [| x s IH]; [done |]. simpl.
  intros [Hx Hs]%andb_prop. by rewrite (is_digit_not_dot x Hx), IH.
Qed.

Lemma pretty_N_char_digit (x : N) : is_digit (pretty_N_char x) = true.
Proof. unfold pretty_N_char. by repeat case_match. Qed.

Lemma pretty_N_go_digits (x : N) (s : string) :
  all_digits s = true → all_digits (pretty_N_go x s) = true.
Proof.
  revert s. induction (N.lt_wf_0 x) as [x _ IH]; intros s Hs.
  destruct (decide (x = 0)%N) as [-> | Hx]; [by rewrite pretty_N_go_0 |].
  rewrite pretty_N_go_step by lia.
  apply IH; [apply N.div_lt; lia |].
  simpl. by rewrite pretty_N_char_digit.
Qed.

Lemma pretty_nat_digits (i : nat) : all_digits (pretty i) = true.
Proof.
  unfold pretty, pretty_nat, pretty, pretty_N.
  destruct (decide _); [done | by apply pretty_N_go_digits].
Qed.

(** Two strings that start with digits and go on with a character that
    is no digit are equal only piece by piece. *)
Lemma digits_then_other (d1 d2 : string) (c1 c2 : ascii) (r1 r2 : string) :
  all_digits d1 = true → all_digits d2 = true →
  is_digit c1 = false → is_digit c2 = false →
  d1 +:+ String c1 r1 = d2 +:+ String c2 r2 →
  d1 = d2 ∧ c1 = c2 ∧ r1 = r2.
Proof.
  revert d2. induction d1 as [| x d1 IH]; intros [| y d2]; cbn;
    intros H1 H2 Hc1 Hc2 Heq.
  - by injection Heq as -> ->.
  - injection Heq as -> _. apply andb_prop in H2 as [Hy _]. congruence.
  - injection Heq as -> _. apply andb_prop in H1 as [Hx _]. congruence.
  - injection Heq as -> Heq.
    apply andb_prop in H1 as [_ H1]. apply andb_prop in H2 as [_ H2].
    by destruct (IH d2 H1 H2 Hc1 Hc2 Heq) as (-> & -> & ->).
Qed.

Lemma output_path_inj (fmt : string) (i j : nat) :
  output_path_of i fmt = output_path_of j fmt → i = j.
Proof.
  unfold output_path_of. intros Heq%String.app_inj.
  apply digits_then_other in Heq as [Heq _];
    auto using pretty_nat_digits.
  by apply (inj pretty).
Qed.

Lemma upscaled_path_eq (fmt : string) (i : nat) :
  dot_free fmt = true →
  upscaled_path_of (output_path_of i fmt)
  = "/tmp/out-" +:+ pretty i +:+ "-upscaled." +:+ fmt.
Proof.
  intros Hfmt. unfold upscaled_path_of, output_path_of.
  rewrite !replace_dots_app.
  rewrite (replace_dots_dot_free _ "/tmp/out-") by done.
  rewrite (replace_dots_dot_free _ (pretty i))
    by apply all_digits_dot_free, pretty_nat_digits.
  rewrite (replace_dots_dot_free _ fmt) by done.
  reflexivity.
Qed.

Lemma upscaled_path_inj (fmt : string) (i j : nat) :
  dot_free fmt = true →
  upscaled_path_of (output_path_of i fmt)
  = upscaled_path_of (output_path_of j fmt) →
  i = j.
Proof.
  intros Hfmt. rewrite !upscaled_path_eq by done.
  intros Heq%String.app_inj.
  apply digits_then_other in Heq as [Heq _];
    auto using pretty_nat_digits.
  by apply (inj pretty).
Qed.

Lemma upscaled_path_fresh (fmt : string) (i j : nat) :
  dot_free fmt = true →
  upscaled_path_of (output_path_of i fmt) ≠ output_path_of j fmt.
Proof.
  intros Hfmt. rewrite upscaled_path_eq by done. unfold output_path_of.
  intros Heq%String.app_inj.
  apply digits_then_other in Heq as (_ & Hc & _);
    auto using pretty_nat_digits.
  discriminate.
Qed.

(** X15. For an output format without a dot, as the three formats
    on offer are, the upscaled copy of the image of index [i] is written
    to [/tmp/out-<i>-upscaled.<format>]; distinct indices give distinct
    candidate paths and distinct upscaled paths, and no upscaled path is
    the path of a candidate. *)
Theorem upscaled_paths_are_fresh (output_format : string) :
  dot_free output_format = true →
  (∀ i, upscaled_path_of (output_path_of i output_format)
        = "/tmp/out-" +:+ pretty i +:+ "-upscaled." +:+ output_format) ∧
  (∀ i j, output_path_of i output_format = output_path_of j output_format →
          i = j) ∧
  (∀ i j, upscaled_path_of (output_path_of i output_format)
          = upscaled_path_of (output_path_of j output_format) →
          i = j) ∧
  (∀ i j, upscaled_path_of (output_path_of i output_format)
          ≠ output_path_of j output_format).
Proof.
  intros Hfmt. split; [intros i; by apply upscaled_path_eq |].
  split; [intros i j; apply output_path_inj |].
  split; [intros i j; by apply upscaled_path_inj |].
  intros i j. by apply upscaled_path_fresh.
Qed.

Lemma upscaled_paths_are_fresh_witness :
  dot_free "webp" = true ∧
  upscaled_path_of (output_path_of 12 "webp") = "/tmp/out-12-upscaled.webp"%string.
Proof.
  assert (H : dot_free "webp" = true) by reflexivity.
  split; [exact H |].
  exact (proj1 (upscaled_paths_are_fresh "webp" H) 12%nat).
Defined.

Lemma files_for_NoDup (fmt : string) (q tw th : Z) (ks : list nat) :
  dot_free fmt = true → NoDup ks →
  NoDup (saved_path <$> files_for fmt q tw th ks).
Proof.
  intros Hfmt Hks. unfold files_for.
  rewrite fmap_app, <- !list_fmap_compose. apply NoDup_app.
  split; [| split].
  - apply NoDup_fmap_2_strong; [| done].
    intros i j _ _. apply output_path_inj.
  - intros path [i [-> _]]%list_elem_of_fmap [j [Heq _]]%list_elem_of_fmap.
    simpl in Heq. symmetry in Heq. by apply upscaled_path_fresh in Heq.
  - apply NoDup_fmap_2_strong; [| done].
    intros i j _ _. by apply upscaled_path_inj.
Qed.

Context {Image : Type}.

(** X16. A request never writes one path twice: for an output format
    without a dot, the files the last stage adds have pairwise distinct
    paths; when it returns, each returned path was written, there are
    two new files for each returned path, and no more paths than
    images. *)
Theorem request_writes_no_path_twice (disable_safety_checker : bool)
    (has_nsfw_content : list bool) (output_format : string)
    (output_quality target_width target_height : Z)
    (images : list Image) (files files' : list saved)
    (r : result (list string)) :
  dot_free output_format = true →
  disable_safety_checker = true
  ∨ (length images ≤ length has_nsfw_content)%nat →
  finish disable_safety_checker has_nsfw_content output_format
    output_quality target_width target_height images files
  = (r, files') →
  ∃ new,
    files' = files ++ new ∧
    NoDup (saved_path <$> new) ∧
    ∀ paths, r = Ok paths →
      NoDup paths ∧
      paths ⊆ saved_path <$> new ∧
      length new = (2 * length paths)%nat ∧
      (length paths ≤ length images)%nat.
Proof.
  intros Hfmt Hv. rewrite finish_survivors by done.
  set (ks := survivors _ _ _ _).
  assert (Hks : NoDup ks) by apply survivors_NoDup.
  assert (Hlen : (length ks ≤ length images)%nat)
    by apply survivors_length.
  case_bool_decide as Hempty.
  { intros [= <- <-]. exists []. rewrite app_nil_r.
    split; [done |]. split; [constructor | done]. }
  intros [= <- <-].
  exists (files_for output_format output_quality target_width
            target_height ks).
  split; [done |]. split; [by apply files_for_NoDup |].
  intros paths [= <-]. unfold paths_for, files_for.
  split.
  { apply NoDup_fmap_2_strong; [| done].
    intros i j _ _. by apply upscaled_path_inj. }
  split.
  { rewrite fmap_app, <- !list_fmap_compose.
    intros path Hpath. apply elem_of_app. by right. }
  rewrite length_app, !length_fmap. lia.
Qed.

End more_paths.

Lemma request_writes_no_path_twice_witness :
  let verdicts := [false; true] in
  let images := [(); ()] in
  let run := Outputs.finish false verdicts "webp" 80 2048 2048 images [] in
  Filtering.dot_free "webp" = true ∧
  (length images ≤ length verdicts)%nat ∧
  NoDup (Outputs.saved_path <$> run.2).
Proof.
  intros verdicts images run.
  assert (H1 : Filtering.dot_free "webp" = true) by reflexivity.
  assert (H2 : (length images ≤ length verdicts)%nat) by (simpl; lia).
  split; [exact H1 |]. split; [exact H2 |].
  destruct (request_writes_no_path_twice false verdicts "webp" 80 2048 2048
              images [] run.2 run.1 H1 (or_intror H2) eq_refl)
    as (new & Hnew & Hdup & _).
  rewrite Hnew. exact Hdup.
Defined.

(** ** The request handler as a whole *)

Section more_predict.

Import Predict.

Context {Image : Type}.

Variable entropy : nat → Byte.byte.
Variable path_exists : string → bool.
Variable run_pipe : Adapters.Predictor → PipeCall → list Image.
Variable run_safety_checker : list Image → list bool.

(** The handler, stage by stage. *)
Lemma predict_stages (req : Request) (w : World) :
  predict entropy path_exists run_pipe run_safety_checker req w
  = match Geometry.resolve_flux_kwargs (aspect_ratio req) (image req)
            (prompt_strength req) with
    | Raise e => (Raise e, w)
    | Ok flux_kwargs =>
        match Adapters.apply_loras path_exists (hf_loras req)
                (lora_scales req) (predictor w) with
        | (Raise e, p') => (Raise e, mkWorld p' (files w) (generations w))
        | (Ok joint_attention_kwargs, p') =>
            let call :=
              mkPipeCall
                (match image req with Some _ => Img2Img | None => Txt2Img end)
                (replicate (num_outputs req) (prompt req))
                (guidance_scale req)
                (Seed.choose_seed (seed req) entropy)
                (num_inference_steps req) 512 flux_kwargs
                joint_attention_kwargs in
            let images := run_pipe p' call in
            let finished :=
              Outputs.finish (disable_safety_checker req)
                (if disable_safety_checker req then []
                 else run_safety_checker images)
                (output_format req) (output_quality req)
                (target_width req) (target_height req) images (files w) in
            (finished.1, mkWorld p' finished.2 (generations w ++ [call]))
        end
    end.
Proof.
  unfold predict, mbind, Eff_bind, of_result, on_predictor, on_files,
    generate.
  destruct (Geometry.resolve_flux_kwargs _ _ _) as [kw | e]; [| done].
  destruct (Adapters.apply_loras _ _ _ _) as [[j | e] p']; [| done].
  simpl. by destruct (Outputs.finish _ _ _ _ _ _ _ _) as [[paths | e] fs].
Qed.

(** X17. A request whose aspect ratio is not in the table raises
    [KeyError] before anything is touched: the adapters, the files and
    the generations are as they were, whatever else the request asks
    for. *)
Theorem unknown_token_changes_nothing (req : Request) (w : World) :
  Geometry.ASPECT_RATIOS !! aspect_ratio req = None →
  predict entropy path_exists run_pipe run_safety_checker req w
  = (Raise (KeyError (aspect_ratio req)), w).
Proof.
  intros Hnone. rewrite predict_stages.
  unfold Geometry.resolve_flux_kwargs, Geometry.aspect_ratio_to_width_height.
  by rewrite Hnone.
Qed.


(** X19. Once the geometry is resolved and the adapters are in place
    the pipeline is called exactly once, whatever the filter decides
    afterwards: with one copy of the prompt for each output asked for,
    the given seed when there is one, a sequence length of 512, the
    img2img pipeline exactly when a seed image is given, and the
    attention scale [1.0] exactly when adapters are requested. *)
Theorem prepared_request_generates_once (req : Request) (w : World)
    (flux_kwargs : Geometry.FluxKwargs) (j : option Py.float)
    (p' : Adapters.Predictor) :
  Geometry.resolve_flux_kwargs (aspect_ratio req) (image req)
    (prompt_strength req) = Ok flux_kwargs →
  Adapters.apply_loras path_exists (hf_loras req) (lora_scales req)
    (predictor w) = (Ok j, p') →
  let w' :=
    (predict entropy path_exists run_pipe run_safety_checker req w).2 in
  predictor w' = p' ∧
  j = (if bool_decide (hf_loras req = []) then None else Some 1%float) ∧
  generations w'
  = generations w
    ++ [mkPipeCall
          (if bool_decide (image req = None) then Txt2Img else Img2Img)
          (replicate (num_outputs req) (prompt req))
          (guidance_scale req)
          (default (Seed.int_from_bytes_big [entropy 0%nat; entropy 1%nat])
             (seed req))
          (num_inference_steps req) 512 flux_kwargs j].
Proof.
  intros Hres Hrun w'. subst w'. rewrite predict_stages, Hres, Hrun.
  simpl. split; [done |]. split.
  - destruct (hf_loras req) as [| f l] eqn:Hhf.
    + rewrite apply_loras_empty in Hrun. by injection Hrun as <- _.
    + rewrite bool_decide_eq_false_2 by done.
      by apply apply_loras_ok_tracked in Hrun as [-> _].
  - do 2 f_equal. by destruct (image req), (seed req).
Qed.

(** X20. Where the pipeline returns one image for each prompt and
    the checker one verdict for each image, a request that returns has
    run one generation and returns at least one path and at most
    [num_outputs], and has written two files for each path it
    returns. *)
Theorem returned_paths_are_accounted_for (req : Request) (w w' : World)
    (paths : list string) :
  (∀ p call, length (run_pipe p call) = length (pc_prompt call)) →
  (∀ images, length (run_safety_checker images) = length images) →
  predict entropy path_exists run_pipe run_safety_checker req w
  = (Ok paths, w') →
  (1 ≤ length paths ≤ num_outputs req)%nat ∧
  length (files w') = (length (files w) + 2 * length paths)%nat ∧
  length (generations w') = S (length (generations w)).
Proof.
  intros Hpipe Hchecker. rewrite predict_stages.
  destruct (Geometry.resolve_flux_kwargs _ _ _) as [kw | e]; [| done].
  destruct (Adapters.apply_loras _ _ _ _) as [[j | e] p']; [| done].
  cbv zeta. set (call := mkPipeCall _ _ _ _ _ _ _ _).
  assert (Hn : length (run_pipe p' call) = num_outputs req)
    by (rewrite Hpipe; apply length_replicate).
  rewrite finish_survivors; last first.
  { destruct (disable_safety_checker req); [by left | right].
    by rewrite Hchecker. }
  set (ks := Filtering.survivors _ _ _ _).
  pose proof (survivors_length (disable_safety_checker req)
    (if disable_safety_checker req then []
     else run_safety_checker (run_pipe p' call)) 0
    (length (run_pipe p' call))) as Hks.
  fold ks in Hks. rewrite Hn in Hks.
  case_bool_decide as Hempty; [done |].
  simpl. intros [= <- <-]. simpl.
  unfold Filtering.paths_for, Filtering.files_for.
  rewrite !length_app, !length_fmap. simpl.
  destruct ks; [done |]. simpl in *. lia.
Qed.

(** X21. In the same setting, a request that ends in the exception of
    the filter has run its generation and has left no file behind; the
    exception carries the NSFW message. *)
Theorem rejected_batch_leaves_no_file (req : Request) (w w' : World)
    (msg : string) :
  (∀ images, length (run_safety_checker images) = length images) →
  predict entropy path_exists run_pipe run_safety_checker req w
  = (Raise (Exception msg), w') →
  msg = "NSFW content detected. Try running it again, or try a different prompt."%string ∧
  files w' = files w ∧
  length (generations w') = S (length (generations w)).
Proof.
  intros Hchecker. rewrite predict_stages.
  destruct (Geometry.resolve_flux_kwargs _ _ _) as [kw | e] eqn:Hres.
  2: { intros [= -> _].
       by apply resolution_never_raises_Exception in Hres. }
  destruct (Adapters.apply_loras _ _ _ _) as [[j | e] p'] eqn:Hrun.
  2: { intros [= -> _]. exfalso.
       by apply apply_loras_raise_cases in Hrun
         as [(? & ? & ? & _ & _ & _ & _ & ?) | (? & _)]. }
  cbv zeta. set (call := mkPipeCall _ _ _ _ _ _ _ _).
  rewrite finish_survivors; last first.
  { destruct (disable_safety_checker req); [by left | right].
    by rewrite Hchecker. }
  case_bool_decide as Hempty; [| done].
  simpl. intros [= <- <-]. simpl.
  split; [done |]. split; [done |]. rewrite length_app. simpl. lia.
Qed.

End more_predict.

Lemma unknown_token_changes_nothing_witness :
  let req :=
    Predict.mkRequest "a cat" "2:1" None 0.5%float 1 4 5%float None "webp"
      80 Adapters.default_loras None false 2048 2048 in
  Geometry.ASPECT_RATIOS !! Predict.aspect_ratio req = None ∧
  Predict.predict (λ _, Byte.x00) Adapters.all_present
    (λ _ call, replicate (length (Predict.pc_prompt call)) ())
    (fmap (λ _, false)) req Predict.fresh
  = (Raise (KeyError "2:1"), Predict.fresh).
Proof.
  intros req.
  assert (H : Geometry.ASPECT_RATIOS !! Predict.aspect_ratio req = None)
    by (vm_compute; reflexivity).
  split; [exact H |].
  exact (unknown_token_changes_nothing (λ _, Byte.x00) Adapters.all_present
           (λ _ call, replicate (length (Predict.pc_prompt call)) ())
           (fmap (λ _, false)) req Predict.fresh H).
Defined.


Lemma prepared_request_generates_once_witness :
  let req :=
    Predict.mkRequest "a cat" "16:9" None 0.5%float 2 4 5%float (Some 42)
      "webp" 80 Adapters.default_loras None false 2048 2048 in
  let kw := Geometry.mkFluxKwargs 1344 768 None None in
  let p' :=
    (Adapters.apply_loras Adapters.all_present Adapters.default_loras None
       Adapters.after_setup).2 in
  Geometry.resolve_flux_kwargs "16:9" None 0.5%float = Ok kw ∧
  Adapters.apply_loras Adapters.all_present Adapters.default_loras None
    Adapters.after_setup = (Ok (Some 1%float), p') ∧
  Predict.generations
    (Predict.predict (λ _, Byte.x00) Adapters.all_present
       (λ _ call, replicate (length (Predict.pc_prompt call)) ())
       (fmap (λ _, true)) req Predict.fresh).2
  = [Predict.mkPipeCall Predict.Txt2Img ["a cat"; "a cat"]%string 5%float
       42 4 512 kw (Some 1%float)].
Proof.
  intros req kw p'.
  assert (H1 : Geometry.resolve_flux_kwargs (Predict.aspect_ratio req)
                 (Predict.image req) (Predict.prompt_strength req) = Ok kw)
    by reflexivity.
  assert (H2 : Adapters.apply_loras Adapters.all_present
                 (Predict.hf_loras req) (Predict.lora_scales req)
                 (Predict.predictor Predict.fresh)
               = (Ok (Some 1%float), p'))
    by reflexivity.
  split; [exact H1 |]. split; [exact H2 |].
  destruct (prepared_request_generates_once (λ _, Byte.x00)
              Adapters.all_present
              (λ _ call, replicate (length (Predict.pc_prompt call)) ())
              (fmap (λ _, true)) req Predict.fresh kw (Some 1%float) p'
              H1 H2) as (_ & _ & Hgen).
  etrans; [exact Hgen | reflexivity].
Defined.

Lemma returned_paths_are_accounted_for_witness :
  let req := Predict.default_request "a cat" in
  let run_pipe := λ (_ : Adapters.Predictor) (call : Predict.PipeCall),
    replicate (length (Predict.pc_prompt call)) () in
  let run_safety_checker := fmap (M := list) (λ _ : (), false) in
  let run :=
    Predict.predict (λ _, Byte.x00) Adapters.all_present run_pipe
      run_safety_checker req Predict.fresh in
  (∀ p call, length (run_pipe p call) = length (Predict.pc_prompt call)) ∧
  (∀ images, length (run_safety_checker images) = length images) ∧
  run = (Ok ["/tmp/out-0-upscaled.webp"%string], run.2) ∧
  length (Predict.files run.2) = 2%nat.
Proof.
  intros req run_pipe run_safety_checker run.
  assert (H1 : ∀ p call,
             length (run_pipe p call) = length (Predict.pc_prompt call))
    by (intros p call; apply length_replicate).
  assert (H2 : ∀ images, length (run_safety_checker images) = length images)
    by (intros images; apply length_fmap).
  assert (H3 : run = (Ok ["/tmp/out-0-upscaled.webp"%string], run.2))
    by reflexivity.
  split; [exact H1 |]. split; [exact H2 |]. split; [exact H3 |].
  destruct (returned_paths_are_accounted_for (λ _, Byte.x00)
              Adapters.all_present run_pipe run_safety_checker req
              Predict.fresh run.2 _ H1 H2 H3) as (_ & Hfiles & _).
  exact Hfiles.
Defined.

Lemma rejected_batch_leaves_no_file_witness :
  let req := Predict.default_request "a cat" in
  let run_pipe := λ (_ : Adapters.Predictor) (call : Predict.PipeCall),
    replicate (length (Predict.pc_prompt call)) () in
  let run_safety_checker := fmap (M := list) (λ _ : (), true) in
  let run :=
    Predict.predict (λ _, Byte.x00) Adapters.all_present run_pipe
      run_safety_checker req Predict.fresh in
  (∀ images, length (run_safety_checker images) = length images) ∧
  run.1 = Raise (Exception
    "NSFW content detected. Try running it again, or try a different prompt.") ∧
  Predict.files run.2 = [] ∧
  length (Predict.generations run.2) = 1%nat.
Proof.
  intros req run_pipe run_safety_checker run.
  assert (H1 : ∀ images, length (run_safety_checker images) = length images)
    by (intros images; apply length_fmap).
  assert (H2 : run = (Raise (Exception
    "NSFW content detected. Try running it again, or try a different prompt."),
                      run.2))
    by reflexivity.
  split; [exact H1 |]. split; [reflexivity |].
  destruct (rejected_batch_leaves_no_file (λ _, Byte.x00)
              Adapters.all_present run_pipe run_safety_checker req
              Predict.fresh run.2 _ H1 H2) as (_ & Hfiles & Hgen).
  split; [exact Hfiles | exact Hgen].
Defined.

(** ** Start-up *)

Section more_setup.

Import Setup.

Variable run : list string → (string → bool) → Z * (string → bool).

Ltac unfold_setup :=
  unfold setup, started, mbind, Run_bind, mret, Run_ret, path_exists,
    download_weights, check_call, step_, throw; cbn.

Ltac setup_cases :=
  unfold_setup;
  repeat (cbn;
          match goal with
          | |- context [negb (?p ?x)] => destruct (p x) eqn:?
          | |- context [run ?argv ?p] =>
              destruct (run argv p) as [? ?] eqn:?
          | |- context [bool_decide (?rc = 0)] =>
              destruct (bool_decide_reflect (rc = 0))
          end).

Ltac absent :=
  repeat (apply not_elem_of_cons; split; [discriminate |]);
  apply not_elem_of_nil.

(** X22. On a machine that holds the two caches and the FSRCNN
    weights, start-up runs no command at all: it loads the safety
    checker, the feature extractor and the pipelines, sets the upscaler
    to FSRCNN with scale 4, and leaves the tracker as the empty
    dictionary that the first request finds. *)
Theorem warm_start_runs_no_command (paths : string → bool) :
  paths SAFETY_CACHE = true →
  paths MODEL_CACHE = true →
  paths fsrcnn_weights = true →
  setup run (started paths)
  = (inr (),
     mkProcess paths
       [ LoadSafetyChecker SAFETY_CACHE;
         LoadFeatureExtractor FEATURE_EXTRACTOR;
         LoadTxt2Img MODEL_CACHE;
         BuildImg2Img;
         CreateUpscaler;
         ReadModel fsrcnn_weights;
         SetModel "fsrcnn" 4 ]
       (Some (Adapters.last_loaded_loras Adapters.after_setup))).
Proof.
  intros Hs Hm Hf. unfold_setup.
  rewrite Hs. cbn. rewrite Hm. cbn. by rewrite Hf.
Qed.

(** X23. When start-up ends in [CalledProcessError], the command that
    failed is the last thing done: it is the download of an archive
    whose cache was missing, its exit status is not zero, and neither
    the pipelines nor the upscaler have been set up. *)
Theorem failed_download_aborts_setup (paths : string → bool)
    (returncode : Z) (cmd : list string) (w' : Process) :
  setup run (started paths) = (inl (CalledProcessError returncode cmd), w') →
  returncode ≠ 0 ∧
  last (steps w') = Some (CheckCall cmd) ∧
  (LoadTxt2Img MODEL_CACHE ∉ steps w') ∧
  (CreateUpscaler ∉ steps w') ∧
  ((cmd = ["pget"; "-xf"; SAFETY_URL; SAFETY_CACHE] ∧
    paths SAFETY_CACHE = false ∧
    run cmd paths = (returncode, exists_ w') ∧
    steps w' = [CheckCall cmd]) ∨
   (cmd = ["pget"; "-xf"; MODEL_URL; "."] ∧
    LoadSafetyChecker SAFETY_CACHE ∈ steps w' ∧
    ∃ paths0, paths0 MODEL_CACHE = false ∧
              run cmd paths0 = (returncode, exists_ w'))).
Proof.
  setup_cases; intros [= <- <- <-]; cbn.
  all: split; [done |]; split; [done |].
  all: split; [absent |]; split; [absent |].
  all: first
    [ left; repeat split; congruence
    | right; split; [done |]; split;
      [ repeat first [apply list_elem_of_here | apply list_elem_of_further]
      | match goal with
        | H : ?p MODEL_CACHE = false |- _ =>
            exists p; split; [exact H | congruence]
        end ] ].
Qed.

Ltac ends_with n :=
  match goal with
  | |- ∃ before, ?l = _ => exists (take (length l - n) l); reflexivity
  end.

(** X24. The FSRCNN weights are looked for last.  When start-up
    raises an exception of its own it is the [FileNotFoundError] for
    [FSRCNN_x4.pb]: the file is missing once the downloads are done, the
    pipelines are loaded and the upscaler is created, and no model is
    read into the upscaler. *)
Theorem missing_fsrcnn_fails_last (paths : string → bool) (e : exn)
    (w' : Process) :
  setup run (started paths) = (inl (Python e), w') →
  e = FileNotFoundError "FSRCNN weights not found: FSRCNN_x4.pb" ∧
  exists_ w' fsrcnn_weights = false ∧
  (∃ before,
     steps w'
     = before ++ [LoadTxt2Img MODEL_CACHE; BuildImg2Img; CreateUpscaler]) ∧
  (ReadModel fsrcnn_weights ∉ steps w') ∧
  last_loaded_loras w' = Some Adapters.EmptyDict.
Proof.
  setup_cases; intros [= <- <-]; cbn.
  all: split; [done |]; split; [done |].
  all: split; [ends_with 3%nat |]; split; [absent | done].
Qed.

(** X25. A start-up that returns has downloaded what was missing and
    nothing else: the safety archive when its cache was not there, then
    the model archive, into the working directory, when the model cache
    is not there at that point.  The FSRCNN weights exist, the upscaler
    is set to FSRCNN with scale 4 at the very end, and the tracker is
    the empty dictionary that the first request finds. *)
Theorem setup_downloads_what_is_missing (paths : string → bool)
    (w' : Process) :
  setup run (started paths) = (inr (), w') →
  let safety := ["pget"; "-xf"; SAFETY_URL; SAFETY_CACHE] in
  let model := ["pget"; "-xf"; MODEL_URL; "."] in
  let paths1 :=
    if paths SAFETY_CACHE then paths else (run safety paths).2 in
  List.filter is_check_call (steps w')
  = (if paths SAFETY_CACHE then [] else [CheckCall safety])
    ++ (if paths1 MODEL_CACHE then [] else [CheckCall model]) ∧
  exists_ w' fsrcnn_weights = true ∧
  (∃ before,
     steps w'
     = before ++ [ LoadTxt2Img MODEL_CACHE; BuildImg2Img; CreateUpscaler;
                   ReadModel fsrcnn_weights; SetModel "fsrcnn" 4 ]) ∧
  last_loaded_loras w'
  = Some (Adapters.last_loaded_loras Adapters.after_setup).
Proof.
  setup_cases; intros [= <-]; cbn.
  all: repeat match goal with
              | H : ?p ?x = _ |- context [?p ?x] => rewrite H
              end; cbn.
  all: split; [done |]; split; [done |].
  all: split; [ends_with 5%nat | done].
Qed.

End more_setup.

Lemma warm_start_runs_no_command_witness :
  let paths := λ _ : string, true in
  paths Setup.SAFETY_CACHE = true ∧
  paths Setup.MODEL_CACHE = true ∧
  paths Setup.fsrcnn_weights = true ∧
  List.filter Setup.is_check_call
    (Setup.steps (Setup.setup Setup.pget_fails (Setup.started paths)).2)
  = [].
Proof.
  intros paths.
  assert (H1 : paths Setup.SAFETY_CACHE = true) by reflexivity.
  assert (H2 : paths Setup.MODEL_CACHE = true) by reflexivity.
  assert (H3 : paths Setup.fsrcnn_weights = true) by reflexivity.
  split; [exact H1 |]. split; [exact H2 |]. split; [exact H3 |].
  by rewrite (warm_start_runs_no_command Setup.pget_fails paths H1 H2 H3).
Defined.

Lemma failed_download_aborts_setup_witness :
  let paths := λ _ : string, false in
  let cmd := ["pget"; "-xf"; Setup.SAFETY_URL; Setup.SAFETY_CACHE]%string in
  let run := Setup.setup Setup.pget_fails (Setup.started paths) in
  run = (inl (Setup.CalledProcessError 1 cmd), run.2) ∧
  last (Setup.steps run.2) = Some (Setup.CheckCall cmd).
Proof.
  intros paths cmd run.
  assert (H : run = (inl (Setup.CalledProcessError 1 cmd), run.2))
    by reflexivity.
  split; [exact H |].
  exact (proj1 (proj2 (failed_download_aborts_setup Setup.pget_fails paths
                         1 cmd run.2 H))).
Defined.

Lemma missing_fsrcnn_fails_last_witness :
  let paths := λ _ : string, false in
  let e := FileNotFoundError "FSRCNN weights not found: FSRCNN_x4.pb" in
  let run := Setup.setup Setup.pget_ok (Setup.started paths) in
  run = (inl (Setup.Python e), run.2) ∧
  Setup.exists_ run.2 Setup.fsrcnn_weights = false.
Proof.
  intros paths e run.
  assert (H : run = (inl (Setup.Python e), run.2)) by reflexivity.
  split; [exact H |].
  exact (proj1 (proj2 (missing_fsrcnn_fails_last Setup.pget_ok paths e
                         run.2 H))).
Defined.

Lemma setup_downloads_what_is_missing_witness :
  let paths := λ path : string, bool_decide (path = Setup.fsrcnn_weights) in
  let run := Setup.setup Setup.pget_ok (Setup.started paths) in
  run = (inr (), run.2) ∧
  List.filter Setup.is_check_call (Setup.steps run.2)
  = [ Setup.CheckCall
        ["pget"; "-xf"; Setup.SAFETY_URL; Setup.SAFETY_CACHE];
      Setup.CheckCall ["pget"; "-xf"; Setup.MODEL_URL; "."] ]%string.
Proof.
  intros paths run.
  assert (H : run = (inr (), run.2)) by reflexivity.
  split; [exact H |].
  destruct (setup_downloads_what_is_missing Setup.pget_ok paths run.2 H)
    as (Hcalls & _).
  etrans; [exact Hcalls | reflexivity].
Defined.
